(** * ORLib, [SimulationAndRand.py]: congruential generators and samplers

    A shallow embedding of the simulation module of ORLib and the proofs of
    the properties its specification states about it.

    Python integers are unbounded, so they are modelled by [Z]; Python's
    [%] on integers is the floor modulo, which is [Z.modulo] for a non-zero
    modulus and raises [ZeroDivisionError] for a zero one.  An exception
    that leaves a function is the [Raise] outcome of [result]. *)

From Stdlib Require Import String ZArith List Lia Bool SpecFloat.
Import ListNotations.

#[local] Open Scope Z_scope.

(** ** The Python run-time the module relies on *)

Module Py.

(** The exceptions that can leave the functions of the module. *)
Inductive exn : Type :=
| ZeroDivisionError
| OverflowError
| UnboundLocalError (name : string)
| ValueError
| AttributeError (name : string)
| PolynomialError
| OtherError (name : string)
| TypeError.

Inductive result (A : Type) : Type :=
| Ok (a : A)
| Raise (e : exn).

Arguments Ok {A} a.
Arguments Raise {A} e.

Definition bind {A B : Type} (r : result A) (k : A -> result B) : result B :=
  match r with
  | Ok a => k a
  | Raise e => Raise e
  end.

(** [x % m] on integers. *)
Definition mod_ (x m : Z) : result Z :=
  if m =? 0 then Raise ZeroDivisionError else Ok (x mod m).

(** A list comprehension whose body can raise: the first exception ends it. *)
Fixpoint traverse {A B : Type} (f : A -> result B) (l : list A)
    : result (list B) :=
  match l with
  | [] => Ok []
  | x :: l' =>
      match f x with
      | Raise e => Raise e
      | Ok y =>
          match traverse f l' with
          | Raise e => Raise e
          | Ok ys => Ok (y :: ys)
          end
      end
  end.

End Py.

Import Py.

Notation "x <- r ;; k" := (Py.bind r (fun x => k))
  (at level 61, r at next level, right associativity).

(** Python's [float] is an IEEE 754 binary64 number: [spec_float] with a
    53-bit significand and round-to-nearest-even arithmetic. *)
Module Float64.

Definition prec : Z := 53.
Definition emax : Z := 1024.

Definition float : Type := spec_float.

Definition zero : float := S754_zero false.
Definition one : float := S754_finite false 4503599627370496 (-52).
(** The value of the expression [1 / 2]. *)
Definition half : float := S754_finite false 4503599627370496 (-53).

Definition add (x y : float) : float := SFadd prec emax x y.
Definition ltb (x y : float) : bool := SFltb x y.
Definition leb (x y : float) : bool := SFleb x y.

Definition is_nan (x : float) : bool :=
  match x with S754_nan => true | _ => false end.

(** The conversion of an integer operand in mixed arithmetic: the nearest
    double, ties to even, and [OverflowError] beyond the largest one. *)
Definition of_Z (z : Z) : float := binary_normalize prec emax z 0 false.

Definition of_int (z : Z) : result float :=
  match of_Z z with
  | S754_infinity _ => Raise OverflowError
  | f => Ok f
  end.

(** The float literal that is the quotient of two small integers. *)
Definition ratio (p q : Z) : float := SFdiv prec emax (of_Z p) (of_Z q).

(** [x / y] on floats. *)
Definition truediv (x y : float) : result float :=
  match y with
  | S754_zero _ => Raise ZeroDivisionError
  | _ => Ok (SFdiv prec emax x y)
  end.

(** Strictly between 0 and 1. *)
Definition in_open_unit (x : float) : bool := ltb zero x && ltb x one.

End Float64.

(** The second half of [binary_round_aux]: the significand after rounding
    is brought back to 53 bits. *)
Definition round_finish (m : Z) (e : Z) : spec_float :=
  let '(mrs, e') := shr_fexp 53 1024 m e loc_Exact in
  match shr_m mrs with
  | Z0 => S754_zero false
  | Zpos m' =>
      if e' <=? 1024 - 53 then S754_finite false m' e' else S754_infinity false
  | Zneg _ => S754_nan
  end.

(** ** Congruential engine *)

(** The [while it <= upper_bound] loop of
    [random_mixed_congruential_generator].  The loop state is the counter
    [it], [current_x] and the list built so far; [fuel] bounds the number of
    times the loop test is evaluated, and [None] means it ran out. *)
Fixpoint lcg_loop (fuel : nat) (a c m x_zero upper_bound : Z)
    (it current_x : Z) (numbers_generated : list Z)
    : option (result (list Z)) :=
  match fuel with
  | O => None
  | S fuel' =>
      if it <=? upper_bound then
        match Py.mod_ (a * current_x + c) m with
        | Raise e => Some (Raise e)
        | Ok next_x =>
            let numbers_generated := numbers_generated ++ [next_x] in
            if next_x =? x_zero then Some (Ok numbers_generated)
            else lcg_loop fuel' a c m x_zero upper_bound
                   (it + 1) next_x numbers_generated
        end
      else Some (Ok numbers_generated)
  end.

(** The loop test is evaluated at most [upper_bound + 2] times. *)
Definition lcg_fuel (upper_bound : Z) : nat := S (Z.to_nat (upper_bound + 1)).

Definition random_mixed_congruential_generator (a c m x_zero upper_bound : Z)
    : option (result (list Z)) :=
  lcg_loop (lcg_fuel upper_bound) a c m x_zero upper_bound 0 x_zero [].

(** The expression [(next_x + (1 / 2)) / m]: both integers are converted to
    floats by the mixed arithmetic, [next_x] first. *)
Definition midpoint (m next_x : Z) : result Float64.float :=
  x <- Float64.of_int next_x ;;
  d <- Float64.of_int m ;;
  Float64.truediv (Float64.add x Float64.half) d.

(** The loop of [uniform_random_from_mixed_congruential_generator]. *)
Fixpoint uniform_loop (fuel : nat) (a c m x_zero upper_bound : Z)
    (it current_x : Z) (numbers_generated : list Float64.float)
    : option (result (list Float64.float)) :=
  match fuel with
  | O => None
  | S fuel' =>
      if it <=? upper_bound then
        match Py.mod_ (a * current_x + c) m with
        | Raise e => Some (Raise e)
        | Ok next_x =>
            match midpoint m next_x with
            | Raise e => Some (Raise e)
            | Ok u =>
                let numbers_generated := numbers_generated ++ [u] in
                if next_x =? x_zero then Some (Ok numbers_generated)
                else uniform_loop fuel' a c m x_zero upper_bound
                       (it + 1) next_x numbers_generated
            end
        end
      else Some (Ok numbers_generated)
  end.

Definition uniform_random_from_mixed_congruential_generator
    (a c m x_zero upper_bound : Z) : option (result (list Float64.float)) :=
  uniform_loop (lcg_fuel upper_bound) a c m x_zero upper_bound 0 x_zero [].

(** The recurrence itself: the [n]-th successor of the seed. *)
Fixpoint lcg_iterate (a c m x : Z) (n : nat) : Z :=
  match n with
  | O => x
  | S n' => (a * lcg_iterate a c m x n' + c) mod m
  end.

(** What one run of the loop, entered with counter [it] and state
    [current_x], appends to the list it was entered with. *)
Record lcg_suffix (a c m x_zero upper_bound it current_x : Z) (l : list Z)
    : Prop := {
  suffix_range : Forall (fun v => 0 <= v < m) l;
  suffix_length : Z.of_nat (length l) <= upper_bound + 1 - it;
  suffix_stop :
    Z.of_nat (length l) = upper_bound + 1 - it \/ last l (x_zero + 1) = x_zero;
  suffix_fresh : Forall (fun v => v <> x_zero) (removelast l);
  suffix_rec :
    forall i, (i < length l)%nat ->
      nth i l 0 = lcg_iterate a c m current_x (S i)
}.

(** ** Numbers of the samplers

    The samplers compute on whatever numbers their arguments, the density
    and the random source produce (Python floats, NumPy doubles, SymPy
    numbers).  Their arithmetic is an interface; [double] below is its
    instance for Python floats.

    The variant with the computed bound computes on SymPy values: the
    density evaluated by [subs] and [evalf], the bound and their quotient.
    Such a value need not be a number that can be compared: it can be
    SymPy's [nan], its [zoo] (a division by zero) or an expression left with
    a free symbol.  SymPy's division never raises ([sym_div]), and its
    comparisons ([sym_leb] for [<=], [sym_ltb] for [<]) raise [TypeError] on
    those values. *)
Record numeric : Type := {
  num :> Type;
  zero : num;
  one : num;
  of_nat : nat -> num;
  add : num -> num -> num;
  sub : num -> num -> num;
  mul : num -> num -> num;
  div : num -> num -> result num;
  leb : num -> num -> bool;
  ltb : num -> num -> bool;
  sym_div : num -> num -> num;
  sym_leb : num -> num -> result bool;
  sym_ltb : num -> num -> result bool
}.

Arguments zero {n}.
Arguments one {n}.
Arguments of_nat {n} _.
Arguments add {n} _ _.
Arguments sub {n} _ _.
Arguments mul {n} _ _.
Arguments div {n} _ _.
Arguments leb {n} _ _.
Arguments ltb {n} _ _.
Arguments sym_div {n} _ _.
Arguments sym_leb {n} _ _.
Arguments sym_ltb {n} _ _.

(** SymPy values on doubles.  The NaN stands for every value that is not a
    comparable number: [nan], [zoo] and the unevaluated expressions.  A
    division by zero gives it, arithmetic keeps it, and a comparison with
    it raises [TypeError]. *)
Definition float_sym_div (x y : Float64.float) : Float64.float :=
  match y with
  | S754_zero _ => S754_nan
  | _ => SFdiv Float64.prec Float64.emax x y
  end.

Definition float_sym_compare (test : Float64.float -> Float64.float -> bool)
    (x y : Float64.float) : result bool :=
  if Float64.is_nan x || Float64.is_nan y then Raise TypeError
  else Ok (test x y).

Definition double : numeric := {|
  num := Float64.float;
  zero := Float64.zero;
  one := Float64.one;
  of_nat := fun n => Float64.of_Z (Z.of_nat n);
  add := Float64.add;
  sub := SFsub Float64.prec Float64.emax;
  mul := SFmul Float64.prec Float64.emax;
  div := Float64.truediv;
  leb := Float64.leb;
  ltb := Float64.ltb;
  sym_div := float_sym_div;
  sym_leb := float_sym_compare Float64.leb;
  sym_ltb := float_sym_compare Float64.ltb
|}.

(** The random source is a stream of draws of [random()], in [0, 1), read
    at a position that every call advances.  [random.uniform(lo, hi)] is
    [lo + (hi - lo) * random()]. *)
Definition rng (N : numeric) : Type := nat -> N.

Definition uniform {N : numeric} (lo hi r : N) : N :=
  add lo (mul (sub hi lo) r).

(** Reading a local variable that may not have been assigned. *)
Definition read_local {A : Type} (name : string) (v : option A) : result A :=
  match v with
  | Some a => Ok a
  | None => Raise (UnboundLocalError name)
  end.

(** ** Acceptance-rejection sampler, bound supplied *)

(** The locals of [generate_acceptance_rejection] that are read after the
    loop; each is unassigned until the loop body has run. *)
Record ar_locals (N : numeric) : Type := {
  first_random : option N;
  second_random : option N;
  evaluation_image : option N
}.

Arguments first_random {N} _.
Arguments second_random {N} _.
Arguments evaluation_image {N} _.

Definition ar_unassigned (N : numeric) : ar_locals N :=
  {| first_random := None; second_random := None; evaluation_image := None |}.

(** [for i in range(0, upper_limit)]: [trials] iterations are left.
    [function] is the value of [eval(function)] as a function of the local
    [x].  The result is the locals and the position of the random source
    when the loop is left, by [break] or by exhaustion. *)
Fixpoint ar_loop {N : numeric} (m a b : N) (function : N -> result N)
    (draws : rng N) (trials pos : nat) (locals : ar_locals N)
    : result (ar_locals N * nat) :=
  match trials with
  | O => Ok (locals, pos)
  | S trials' =>
      let first_random := uniform zero one (draws pos) in
      let second_random := uniform zero one (draws (S pos)) in
      let x := add a (mul (sub b a) first_random) in
      evaluation_image <- function x ;;
      bound <- div evaluation_image m ;;
      let locals := {| first_random := Some first_random;
                       second_random := Some second_random;
                       evaluation_image := Some evaluation_image |} in
      if leb second_random bound then Ok (locals, S (S pos))
      else ar_loop m a b function draws trials' (S (S pos)) locals
  end.

Definition generate_acceptance_rejection {N : numeric} (m a b : N)
    (function : N -> result N) (upper_limit : Z) (draws : rng N) (pos : nat)
    : result (N * nat) :=
  out <- ar_loop m a b function draws (Z.to_nat upper_limit) pos
           (ar_unassigned N) ;;
  let '(locals, pos) := out in
  _ <- read_local "first_random" (first_random locals) ;;
  _ <- read_local "second_random" (second_random locals) ;;
  v <- read_local "evaluation_image" (evaluation_image locals) ;;
  Ok (v, pos).

(** One trial as the specification words it: the candidate is
    [a + (b - a) * u1], and it is accepted when [u2 <= f(candidate) / m].
    The result is the density at the candidate and the verdict. *)
Definition ar_candidate {N : numeric} (a b u1 : N) : N :=
  add a (mul (sub b a) u1).

Definition ar_trial {N : numeric} (m a b : N) (function : N -> result N)
    (u1 u2 : N) : result (N * bool) :=
  image <- function (ar_candidate a b u1) ;;
  bound <- div image m ;;
  Ok (image, leb u2 bound).

(** The locals a trial leaves behind. *)
Definition ar_assigned {N : numeric} (u1 u2 image : N) : ar_locals N :=
  {| first_random := Some u1; second_random := Some u2;
     evaluation_image := Some image |}.

(** The two draws of trial [k] of a call entered at position [pos]. *)
Definition draw_u1 {N : numeric} (draws : rng N) (pos k : nat) : N :=
  uniform zero one (draws (pos + 2 * k)%nat).

Definition draw_u2 {N : numeric} (draws : rng N) (pos k : nat) : N :=
  uniform zero one (draws (S (pos + 2 * k))).

(** Trial [k] of a call entered at [pos] evaluates the density to [image]
    and rejects, or accepts. *)
Definition rejects {N : numeric} (m a b : N) (function : N -> result N)
    (draws : rng N) (pos k : nat) (image : N) : Prop :=
  ar_trial m a b function (draw_u1 draws pos k) (draw_u2 draws pos k)
  = Ok (image, false).

Definition accepts {N : numeric} (m a b : N) (function : N -> result N)
    (draws : rng N) (pos k : nat) (image : N) : Prop :=
  ar_trial m a b function (draw_u1 draws pos k) (draw_u2 draws pos k)
  = Ok (image, true).

(** ** Acceptance-rejection sampler, bound computed *)

(** [np.linspace(start, stop, num)] for [num >= 2]: [num - 1] steps of
    [(stop - start) / (num - 1)] from [start], and [stop] itself last. *)
Definition linspace {N : numeric} (start stop : N) (n : nat)
    : result (list N) :=
  step <- div (sub stop start) (of_nat (n - 1)) ;;
  Ok (map (fun i => add (mul (of_nat i) step) start) (seq 0 (n - 1))
        ++ [stop]).

Definition grid_points : nat := Z.to_nat 10000.

(** [max] of a list of SymPy values: every element after the first is
    compared with the largest so far, by [item > largest], and replaces it
    when greater, so that the result is the first of the largest elements;
    a comparison that raises ends the call. *)
Fixpoint max_from {N : numeric} (largest : N) (l : list N) : result N :=
  match l with
  | [] => Ok largest
  | item :: l' =>
      greater <- sym_ltb largest item ;;
      max_from (if greater then item else largest) l'
  end.

Definition py_max {N : numeric} (l : list N) : result N :=
  match l with
  | [] => Raise ValueError
  | v :: l' => max_from v l'
  end.

(** The bound [m]: the largest density over the grid of 10000 points.
    [function] is the value of [f.subs(x, val).evalf()] as a function of
    [val], where [f] is [smp.sympify(function)] and [x] the symbol the code
    declares with [real=True].  For an expression built on that symbol it
    is the expression at [val].  For a text, whose letters [sympify] reads
    as symbols without [real=True], nothing is substituted: the value is
    the same for every [val], a number when the text has no symbol and an
    unevaluated expression otherwise. *)
Definition grid_maximum {N : numeric} (a b : N) (function : N -> result N)
    : result N :=
  x_values <- linspace a b grid_points ;;
  images <- traverse function x_values ;;
  py_max images.

Fixpoint ars_loop {N : numeric} (m a b : N) (function : N -> result N)
    (draws : rng N) (trials pos : nat) : result (option N * nat) :=
  match trials with
  | O => Ok (None, pos)
  | S trials' =>
      let first_random := uniform a b (draws pos) in
      let second_random := uniform zero one (draws (S pos)) in
      let x_value := add a (mul (sub b a) first_random) in
      evaluation_image <- function x_value ;;
      accepted <- sym_leb second_random (sym_div evaluation_image m) ;;
      if accepted then Ok (Some evaluation_image, S (S pos))
      else ars_loop m a b function draws trials' (S (S pos))
  end.

(** A trial of this variant in the words of the specification: the trial
    of the other variant, on a first draw taken from [[a, b]] and on SymPy
    values. *)
Definition ars_first_random {N : numeric} (a b : N) (draws : rng N)
    (pos k : nat) : N :=
  uniform a b (draws (pos + 2 * k)%nat).

Definition ars_trial {N : numeric} (m a b : N) (function : N -> result N)
    (draws : rng N) (pos k : nat) : result (N * bool) :=
  image <- function (ar_candidate a b (ars_first_random a b draws pos k)) ;;
  accepted <- sym_leb (draw_u2 draws pos k) (sym_div image m) ;;
  Ok (image, accepted).

(** [None] is Python's [None]: no trial accepted. *)
Definition generate_acceptance_rejection_with_symp {N : numeric} (a b : N)
    (function : N -> result N) (upper_limit : Z) (draws : rng N) (pos : nat)
    : result (option N * nat) :=
  m <- grid_maximum a b function ;;
  ars_loop m a b function draws (Z.to_nat upper_limit) pos.

(** ** Symbolic inversion helper *)

(** The symbolic engine: expressions, [integrate(f, x)] and
    [solve(Eq(F, r), x)], which returns the list of solutions it found or
    raises. *)
Record engine : Type := {
  expr : Type;
  integrate : expr -> result expr;
  solve : expr -> result (list expr)
}.

(** The function returns the pair, or [None] from the bare [return]. *)
Definition integrate_and_find_inverse (E : engine) (function : expr E)
    : result (option (expr E * list (expr E))) :=
  integrated <- integrate E function ;;
  match solve E integrated with
  | Ok inverse => Ok (Some (integrated, inverse))
  | Raise PolynomialError => Ok None
  | Raise e => Raise e
  end.

(** ** Inverse-transform sampler *)

(** The test that sends the loop to [continue]. *)
Definition out_of_range {N : numeric} (lower_bound upper_bound : option N)
    (rv : N) : bool :=
  match lower_bound with Some lo => ltb rv lo | None => false end
  || match upper_bound with Some hi => ltb hi rv | None => false end.

(** [while len(rvs) < n_samples]: the loop shared, word for word, by the
    two variants, which differ in the function applied to the draw. *)
Fixpoint its_loop {N : numeric} (transform : N -> N)
    (lower_bound upper_bound : option N) (n_samples : Z) (draws : rng N)
    (fuel pos : nat) (rvs : list N) : option (list N * nat) :=
  match fuel with
  | O => None
  | S fuel' =>
      if Z.of_nat (length rvs) <? n_samples then
        let U := uniform zero one (draws pos) in
        let rv := transform U in
        if out_of_range lower_bound upper_bound rv then
          its_loop transform lower_bound upper_bound n_samples draws
            fuel' (S pos) rvs
        else
          its_loop transform lower_bound upper_bound n_samples draws
            fuel' (S pos) (rvs ++ [rv])
      else Some (rvs, pos)
  end.

(** The catalog: [getattr(stats, dist_name)] finds a distribution or raises
    [AttributeError]; its [ppf] takes the draw and the parameters. *)
Definition catalog (N : numeric) (params : Type) : Type :=
  string -> option (params -> N -> N).

Definition inverse_transform_sampling {N : numeric} {params : Type}
    (stats : catalog N params) (n_samples : Z) (dist_name : string)
    (lower_bound upper_bound : option N) (args : params)
    (draws : rng N) (fuel pos : nat) : option (result (list N * nat)) :=
  match stats dist_name with
  | None => Some (Raise (AttributeError dist_name))
  | Some ppf =>
      option_map Ok
        (its_loop (ppf args) lower_bound upper_bound n_samples draws
           fuel pos [])
  end.

(** [inverse] is the function [lambdify] makes of the expression. *)
Definition user_inverse_transform_sampling_from_inverse {N : numeric}
    (n_samples : Z) (inverse : N -> N) (lower_bound upper_bound : option N)
    (draws : rng N) (fuel pos : nat) : option (result (list N * nat)) :=
  option_map Ok
    (its_loop inverse lower_bound upper_bound n_samples draws fuel pos []).

(** The number of draws, among the [k] from position [pos], that the loop
    keeps. *)
Fixpoint kept {N : numeric} (transform : N -> N)
    (lower_bound upper_bound : option N) (draws : rng N) (pos k : nat) : nat :=
  match k with
  | O => O
  | S k' =>
      (if out_of_range lower_bound upper_bound
            (transform (uniform zero one (draws pos)))
       then 0 else 1)
      + kept transform lower_bound upper_bound draws (S pos) k'
  end%nat.

(** The candidate made of draw [i], and the candidates of the [k] draws
    from position [pos], in the order of the draws. *)
Definition its_candidate {N : numeric} (transform : N -> N) (draws : rng N)
    (i : nat) : N :=
  transform (uniform zero one (draws i)).

Definition its_candidates {N : numeric} (transform : N -> N) (draws : rng N)
    (pos k : nat) : list N :=
  map (its_candidate transform draws) (seq pos k).

(** An inverse whose value is not a number, as [log] of a negative one. *)
Definition nan_inverse (u : double) : double := S754_nan.

(** ** Runs on Python floats

    The call of the module's docstring: the density
    ["1.0/50.0 * (x - 10.0)"] on [10, 20] with bound
    [1.0/50.0 * (20.0 - 10.0)]. *)
Definition docstring_density (x : double) : result double :=
  Ok (mul (Float64.ratio 1 50 : double) (sub x (Float64.of_Z 10))).

Definition docstring_bound : double :=
  mul (Float64.ratio 1 50 : double)
    (sub (Float64.of_Z 20 : double) (Float64.of_Z 10)).

(** A random source whose draws repeat 0.25, 0.75, 0.75, 0.25. *)
Definition cycling_draws : rng double :=
  fun i =>
    match (i mod 4)%nat with
    | 0%nat | 3%nat => Float64.ratio 1 4
    | _ => Float64.ratio 3 4
    end.

(** The uniform density on [1, 3], the text ["0.5"]: a number. *)
Definition flat_density (x : double) : result double :=
  Ok (Float64.ratio 1 2).

(** The density [x], the symbol the code declares with [real=True]. *)
Definition identity_density (x : double) : result double := Ok x.

(** The density given as the text ["x"]: [x] is read as another symbol,
    nothing is substituted, and the value is an expression that is not a
    number. *)
Definition text_density (x : double) : result double := Ok S754_nan.

(** A symbolic engine of one expression whose solver raises
    [PolynomialError], and one whose solver finds no solution. *)
Definition unsolvable_engine : engine :=
  {| expr := unit;
     integrate := fun f => Ok f;
     solve := fun _ => Raise PolynomialError |}.

Definition fruitless_engine : engine :=
  {| expr := unit;
     integrate := fun f => Ok f;
     solve := fun _ => Ok [] |}.

(** A catalog with one distribution, ["uniform"], whose quantile function
    is the identity. *)
Definition uniform_catalog : catalog double unit :=
  fun name => if String.eqb name "uniform" then Some (fun _ u => u) else None.

(** * Properties *)

(** ** Congruential engine *)

Section LcgLoop.

Variables a c m x_zero upper_bound : Z.

Lemma lcg_suffix_nil it current_x :
  it = upper_bound + 1 -> lcg_suffix a c m x_zero upper_bound it current_x [].
Proof.
  intros ->. split; simpl; auto; try lia.
Qed.

Lemma lcg_suffix_last it current_x :
  0 < m -> it <= upper_bound ->
  (a * current_x + c) mod m = x_zero ->
  lcg_suffix a c m x_zero upper_bound it current_x [x_zero].
Proof.
  intros Hm Hit Hx. split; simpl.
  - constructor; [subst x_zero; apply Z.mod_pos_bound; lia | constructor].
  - lia.
  - right; reflexivity.
  - constructor.
  - intros [|i] Hi; [symmetry; exact Hx | simpl in Hi; lia].
Qed.

Lemma lcg_iterate_shift x n :
  lcg_iterate a c m ((a * x + c) mod m) n = lcg_iterate a c m x (S n).
Proof.
  induction n as [|n IH]; [reflexivity|].
  change (lcg_iterate a c m ((a * x + c) mod m) (S n))
    with ((a * lcg_iterate a c m ((a * x + c) mod m) n + c) mod m).
  rewrite IH. reflexivity.
Qed.

Lemma lcg_suffix_cons it current_x l :
  0 < m ->
  (a * current_x + c) mod m <> x_zero ->
  lcg_suffix a c m x_zero upper_bound (it + 1) ((a * current_x + c) mod m) l ->
  lcg_suffix a c m x_zero upper_bound it current_x ((a * current_x + c) mod m :: l).
Proof.
  intros Hm Hne [Hr Hl Hs Hf Hrec]. split.
  - constructor; [apply Z.mod_pos_bound; lia | exact Hr].
  - simpl length. lia.
  - destruct l as [|y l'].
    + left. simpl in *. lia.
    + destruct Hs as [Hs|Hs]; [left; simpl length in *; lia | right; exact Hs].
  - destruct l as [|y l']; [constructor|].
    change (removelast (((a * current_x + c) mod m) :: y :: l'))
      with (((a * current_x + c) mod m) :: removelast (y :: l')).
    constructor; assumption.
  - intros [|i] Hi; [reflexivity|].
    simpl in Hi. simpl nth. rewrite Hrec by lia.
    apply lcg_iterate_shift.
Qed.

Lemma lcg_loop_spec fuel :
  0 < m ->
  forall it current_x acc,
    it <= upper_bound + 1 ->
    (Z.to_nat (upper_bound + 1 - it) < fuel)%nat ->
    exists l,
      lcg_loop fuel a c m x_zero upper_bound it current_x acc
        = Some (Ok (acc ++ l))
      /\ lcg_suffix a c m x_zero upper_bound it current_x l.
Proof.
  intros Hm. induction fuel as [|fuel IH]; intros it current_x acc Hit Hfuel.
  - lia.
  - simpl. destruct (it <=? upper_bound) eqn:Hle.
    + apply Z.leb_le in Hle. unfold Py.mod_.
      destruct (m =? 0) eqn:Hm0; [apply Z.eqb_eq in Hm0; lia|].
      destruct ((a * current_x + c) mod m =? x_zero) eqn:Hx.
      * apply Z.eqb_eq in Hx. exists [x_zero]. split.
        -- rewrite Hx. reflexivity.
        -- apply lcg_suffix_last; assumption.
      * apply Z.eqb_neq in Hx.
        destruct (IH (it + 1) ((a * current_x + c) mod m)
                    (acc ++ [(a * current_x + c) mod m])) as (l & Hrun & Hl);
          [lia | lia |].
        exists ((a * current_x + c) mod m :: l). split.
        -- rewrite Hrun, <- app_assoc. reflexivity.
        -- apply lcg_suffix_cons; assumption.
    + apply Z.leb_gt in Hle. exists []. split.
      * rewrite app_nil_r. reflexivity.
      * apply lcg_suffix_nil. lia.
Qed.

End LcgLoop.

(** The run of the generator for a modulus [m > 0] and a cap of at least 0. *)
Lemma lcg_range_and_recurrence (a c m x_zero upper_bound : Z) :
  0 < m -> 0 <= upper_bound ->
  exists l,
    random_mixed_congruential_generator a c m x_zero upper_bound = Some (Ok l)
    /\ Forall (fun v => 0 <= v < m) l.
Proof.
  intros Hm Hub.
  destruct (lcg_loop_spec a c m x_zero upper_bound (lcg_fuel upper_bound) Hm
              0 x_zero []) as (l & Hrun & [Hr _ _ _ _]).
  - lia.
  - unfold lcg_fuel. rewrite Z.sub_0_r. lia.
  - exists l. split; [exact Hrun | exact Hr].
Qed.

(** C1: for a modulus [m > 0] and a cap [upper_bound >= 0] the generator
    returns a list whose elements all lie in [0, m), that has at most
    [upper_bound + 1] elements, and that ends either because the cap was
    reached or with the first produced value equal to the seed, which is its
    last element; the [i]-th element is the [(i+1)]-th iterate of the
    recurrence.  Nothing is needed of the signs of [a], [c] or of the seed. *)
Theorem lcg_range_length_stop (a c m x_zero upper_bound : Z) :
  0 < m -> 0 <= upper_bound ->
  exists l,
    random_mixed_congruential_generator a c m x_zero upper_bound = Some (Ok l)
    /\ Forall (fun v => 0 <= v < m) l
    /\ 1 <= Z.of_nat (length l) <= upper_bound + 1
    /\ (Z.of_nat (length l) = upper_bound + 1
        \/ exists l', l = l' ++ [x_zero])
    /\ Forall (fun v => v <> x_zero) (removelast l)
    /\ (forall i, (i < length l)%nat ->
          nth i l 0 = lcg_iterate a c m x_zero (S i)).
Proof.
  intros Hm Hub.
  destruct (lcg_loop_spec a c m x_zero upper_bound (lcg_fuel upper_bound) Hm
              0 x_zero []) as (l & Hrun & [Hr Hl Hs Hf Hrec]).
  - lia.
  - unfold lcg_fuel. rewrite Z.sub_0_r. lia.
  - exists l. split; [exact Hrun|].
    assert (Hne : l <> []).
    { intros ->. simpl in Hs. destruct Hs; lia. }
    repeat split; try assumption; try lia.
    + destruct l; [congruence | simpl; lia].
    + destruct Hs as [Hs|Hs]; [left; lia | right].
      exists (removelast l).
      pose proof (app_removelast_last (x_zero + 1) Hne) as E.
      rewrite Hs in E. exact E.
Qed.

Lemma lcg_range_length_stop_witness :
  exists l,
    random_mixed_congruential_generator 5 3 16 1 20 = Some (Ok l)
    /\ Forall (fun v => 0 <= v < 16) l
    /\ 1 <= Z.of_nat (length l) <= 20 + 1
    /\ (Z.of_nat (length l) = 20 + 1 \/ exists l', l = l' ++ [1])
    /\ Forall (fun v => v <> 1) (removelast l)
    /\ (forall i, (i < length l)%nat ->
          nth i l 0 = lcg_iterate 5 3 16 1 (S i)).
Proof. apply (lcg_range_length_stop 5 3 16 1 20); lia. Defined.

(** A cap below zero: the loop body never runs and the result is empty,
    whatever the modulus. *)
Lemma lcg_negative_cap (a c m x_zero upper_bound : Z) :
  upper_bound < 0 ->
  random_mixed_congruential_generator a c m x_zero upper_bound = Some (Ok []).
Proof.
  intros Hub. unfold random_mixed_congruential_generator, lcg_fuel. simpl.
  destruct (0 <=? upper_bound) eqn:H; [apply Z.leb_le in H; lia | reflexivity].
Qed.

(** C2 as stated: the returned list is not the trajectory that starts with
    the seed. *)
Lemma lcg_example_not_seed_first :
  random_mixed_congruential_generator 5 3 16 1 20
  <> Some (Ok [1; 8; 11; 10; 5; 12; 15; 14; 9; 0; 3; 2; 13; 4; 7; 6; 1]).
Proof. vm_compute. discriminate. Qed.

(** C2, amended: with a=5, c=3, m=16, seed 1 and cap 20 the generator
    returns the sixteen successors of the seed, 8, 11, ..., 6, 1: the seed
    is not emitted first, and the list ends at its first repeat. *)
Theorem lcg_example_cycle :
  random_mixed_congruential_generator 5 3 16 1 20
  = Some (Ok [8; 11; 10; 5; 12; 15; 14; 9; 0; 3; 2; 13; 4; 7; 6; 1]).
Proof. vm_compute. reflexivity. Qed.

(** C9 as stated fails: with the modulus 0 and the cap -1 the loop body
    never runs, nothing is refused and the empty list is returned. *)
Lemma lcg_zero_modulus_unnoticed :
  random_mixed_congruential_generator 5 3 0 1 (-1) = Some (Ok [])
  /\ forall e,
       random_mixed_congruential_generator 5 3 0 1 (-1) <> Some (Raise e).
Proof. split; [reflexivity | intros e; discriminate]. Qed.

(** C9, amended: the modulus 0 is refused by no check of the function but
    by the first evaluation of [% m]: with a cap of at least 0 it raises
    [ZeroDivisionError] and no list is returned; with a cap below 0 the
    loop body never runs and the empty list is returned. *)
Theorem lcg_zero_modulus_rejected (a c x_zero upper_bound : Z) :
  (0 <= upper_bound ->
   random_mixed_congruential_generator a c 0 x_zero upper_bound
   = Some (Raise ZeroDivisionError))
  /\ (upper_bound < 0 ->
      random_mixed_congruential_generator a c 0 x_zero upper_bound
      = Some (Ok [])).
Proof.
  unfold random_mixed_congruential_generator, lcg_fuel. simpl.
  destruct (0 <=? upper_bound) eqn:H.
  - apply Z.leb_le in H. split; [reflexivity | lia].
  - apply Z.leb_gt in H. split; [lia | reflexivity].
Qed.

Lemma lcg_zero_modulus_rejected_witness :
  random_mixed_congruential_generator 5 3 0 1 20
  = Some (Raise ZeroDivisionError).
Proof. apply (proj1 (lcg_zero_modulus_rejected 5 3 1 20)). lia. Defined.

(** ** Acceptance-rejection sampler, bound supplied *)

Section AcceptanceRejection.

Context {N : numeric}.
Variables (m a b : N) (function : N -> result N) (draws : rng N).

(** The loop body is the trial of the specification. *)
Lemma ar_loop_step trials pos locals :
  ar_loop m a b function draws (S trials) pos locals
  = match ar_trial m a b function (draw_u1 draws pos 0) (draw_u2 draws pos 0)
    with
    | Raise e => Raise e
    | Ok (image, accepted) =>
        let locals' :=
          ar_assigned (draw_u1 draws pos 0) (draw_u2 draws pos 0) image in
        if accepted then Ok (locals', S (S pos))
        else ar_loop m a b function draws trials (S (S pos)) locals'
    end.
Proof.
  unfold ar_trial, ar_candidate, draw_u1, draw_u2, ar_assigned.
  rewrite Nat.add_0_r. simpl.
  destruct (function _) as [image|e]; simpl; [|reflexivity].
  destruct (div image m) as [bound|e]; simpl; reflexivity.
Qed.

Lemma draw_u1_shift pos k :
  draw_u1 draws pos (S k) = draw_u1 draws (S (S pos)) k.
Proof. unfold draw_u1. f_equal. f_equal. lia. Qed.

Lemma draw_u2_shift pos k :
  draw_u2 draws pos (S k) = draw_u2 draws (S (S pos)) k.
Proof. unfold draw_u2. f_equal. f_equal. lia. Qed.

(** After [k] rejected trials the loop is where it would be had it been
    entered [k] trials later. *)
Lemma ar_loop_skip k :
  forall trials pos locals,
    (forall j, (j < k)%nat -> exists image, rejects m a b function draws pos j image) ->
    exists locals',
      ar_loop m a b function draws (k + trials) pos locals
      = ar_loop m a b function draws trials (pos + 2 * k) locals'
      /\ (k = O -> locals' = locals)
      /\ (forall k' image, k = S k' -> rejects m a b function draws pos k' image ->
            locals' = ar_assigned (draw_u1 draws pos k') (draw_u2 draws pos k')
                        image).
Proof.
  induction k as [|k IH]; intros trials pos locals Hrej.
  - exists locals. rewrite Nat.add_0_r. repeat split; auto. discriminate.
  - destruct (Hrej O) as [image0 H0]; [lia|].
    change (S k + trials)%nat with (S (k + trials)).
    rewrite ar_loop_step. unfold rejects in H0. rewrite H0. cbv zeta.
    destruct (IH trials (S (S pos))
                (ar_assigned (draw_u1 draws pos 0) (draw_u2 draws pos 0) image0))
      as (locals' & Hrun & Hz & Hs).
    { intros j Hj. destruct (Hrej (S j)) as [image Himage]; [lia|].
      exists image. unfold rejects in *.
      rewrite <- draw_u1_shift, <- draw_u2_shift. exact Himage. }
    exists locals'. split; [|split].
    + rewrite Hrun. f_equal. lia.
    + discriminate.
    + intros k' image Hk Himage. injection Hk as <-.
      destruct k as [|k''].
      * rewrite (Hz eq_refl). unfold rejects in Himage.
        rewrite H0 in Himage. injection Himage as <-. reflexivity.
      * rewrite draw_u1_shift, draw_u2_shift.
        apply (Hs k'' image eq_refl). unfold rejects in *.
        rewrite <- draw_u1_shift, <- draw_u2_shift. exact Himage.
Qed.

Lemma ar_first_acceptance_loop k trials pos locals image :
  (forall j, (j < k)%nat -> exists w, rejects m a b function draws pos j w) ->
  accepts m a b function draws pos k image ->
  ar_loop m a b function draws (k + S trials) pos locals
  = Ok (ar_assigned (draw_u1 draws pos k) (draw_u2 draws pos k) image,
        (pos + 2 * S k)%nat).
Proof.
  intros Hrej Hacc.
  destruct (ar_loop_skip k (S trials) pos locals Hrej) as (locals' & -> & _).
  rewrite ar_loop_step. unfold accepts in Hacc.
  unfold draw_u1, draw_u2 in *.
  replace (pos + 2 * k + 2 * 0)%nat with (pos + 2 * k)%nat by lia.
  rewrite Hacc. cbv zeta. f_equal. f_equal. lia.
Qed.

Lemma ar_exhausted_loop k pos locals image :
  (forall j, (j < S k)%nat -> exists w, rejects m a b function draws pos j w) ->
  rejects m a b function draws pos k image ->
  ar_loop m a b function draws (S k) pos locals
  = Ok (ar_assigned (draw_u1 draws pos k) (draw_u2 draws pos k) image,
        (pos + 2 * S k)%nat).
Proof.
  intros Hrej Hlast.
  destruct (ar_loop_skip (S k) O pos locals Hrej) as (locals' & Hrun & _ & Hs).
  rewrite Nat.add_0_r in Hrun. rewrite Hrun. simpl ar_loop.
  rewrite (Hs k image eq_refl Hlast). reflexivity.
Qed.

(** When the density and the division by the bound never raise, a loop of
    at least one trial leaves every local assigned. *)
Lemma ar_loop_assigned trials :
  (forall x, exists image, function x = Ok image) ->
  (forall image, exists bound, div image m = Ok bound) ->
  forall pos locals,
    exists u1 u2 image pos',
      ar_loop m a b function draws (S trials) pos locals
      = Ok (ar_assigned u1 u2 image, pos').
Proof.
  intros Hf Hd. induction trials as [|trials IH]; intros pos locals.
  - simpl.
    destruct (Hf (add a (mul (sub b a) (uniform zero one (draws pos)))))
      as [image ->]. simpl.
    destruct (Hd image) as [bound ->]. simpl.
    destruct (leb _ bound); do 4 eexists; reflexivity.
  - rewrite ar_loop_step. unfold ar_trial, ar_candidate.
    destruct (Hf (add a (mul (sub b a) (draw_u1 draws pos 0))))
      as [image ->]. cbn [Py.bind].
    destruct (Hd image) as [bound ->]. cbn [Py.bind]. cbv zeta.
    destruct (leb _ bound); [do 4 eexists; reflexivity | apply IH].
Qed.

End AcceptanceRejection.

(** C4: when the trials before trial [k] reject and trial [k] accepts,
    where a trial with draws [u1], [u2] has candidate [a + (b - a) * u1]
    and accepts when [u2 <= f(candidate) / m], the function stops at trial
    [k], having read [2 * (k + 1)] draws, and returns the density at the
    candidate of that trial, not the candidate. *)
Theorem ar_accepts_returns_density {N : numeric} (m a b : N)
    (function : N -> result N) (upper_limit : Z) (draws : rng N)
    (pos k : nat) (image : N) :
  (k < Z.to_nat upper_limit)%nat ->
  (forall j, (j < k)%nat -> exists w, rejects m a b function draws pos j w) ->
  accepts m a b function draws pos k image ->
  generate_acceptance_rejection m a b function upper_limit draws pos
  = Ok (image, (pos + 2 * S k)%nat)
  /\ function (add a (mul (sub b a) (draw_u1 draws pos k))) = Ok image
  /\ (exists bound,
        div image m = Ok bound /\ leb (draw_u2 draws pos k) bound = true)
  /\ (forall j w, rejects m a b function draws pos j w ->
        function (add a (mul (sub b a) (draw_u1 draws pos j))) = Ok w
        /\ exists bound,
             div w m = Ok bound /\ leb (draw_u2 draws pos j) bound = false).
Proof.
  intros Hk Hrej Hacc. split; [|split; [|split]].
  - unfold generate_acceptance_rejection.
    replace (Z.to_nat upper_limit)
      with (k + S (Z.to_nat upper_limit - S k))%nat by lia.
    rewrite (ar_first_acceptance_loop m a b function draws k
               (Z.to_nat upper_limit - S k) pos (ar_unassigned N) image
               Hrej Hacc).
    reflexivity.
  - unfold accepts, ar_trial, ar_candidate in Hacc.
    destruct (function _) as [v|e]; simpl in Hacc; [|discriminate].
    destruct (div v m) as [q|e]; simpl in Hacc; [|discriminate].
    congruence.
  - unfold accepts, ar_trial, ar_candidate in Hacc.
    destruct (function _) as [v|e]; simpl in Hacc; [|discriminate].
    destruct (div v m) as [q|e] eqn:Hq; simpl in Hacc; [|discriminate].
    injection Hacc as <- Hle. exists q. split; assumption.
  - intros j w Hj. unfold rejects, ar_trial, ar_candidate in Hj.
    destruct (function _) as [v|e]; simpl in Hj; [|discriminate].
    destruct (div v m) as [q|e] eqn:Hq; simpl in Hj; [|discriminate].
    injection Hj as <- Hle. split; [reflexivity|].
    exists q. split; assumption.
Qed.

Lemma ar_accepts_returns_density_witness :
  generate_acceptance_rejection (N := double) docstring_bound
    (Float64.of_Z 10) (Float64.of_Z 20) docstring_density 100 cycling_draws 0
  = Ok (Float64.ratio 3 20, 4%nat)
  /\ ar_candidate (N := double) (Float64.of_Z 10) (Float64.of_Z 20)
       (draw_u1 cycling_draws 0 1) = Float64.ratio 35 2.
Proof.
  split; [|vm_compute; reflexivity].
  refine (proj1 (ar_accepts_returns_density (N := double) docstring_bound
                   (Float64.of_Z 10) (Float64.of_Z 20) docstring_density 100
                   cycling_draws 0 1 (Float64.ratio 3 20) _ _ _)).
  - vm_compute. lia.
  - intros j Hj. assert (j = 0%nat) as -> by lia.
    exists (Float64.ratio 1 20). vm_compute. reflexivity.
  - vm_compute. reflexivity.
Defined.

(** C10: with [upper_limit <= 0] the loop body never runs and the read of
    the first unassigned local after the loop raises [UnboundLocalError];
    a value is returned only when [upper_limit >= 1], and then one is
    returned whenever the density and the division by [m] do not raise. *)
Theorem ar_needs_one_trial {N : numeric} (m a b : N)
    (function : N -> result N) (upper_limit : Z) (draws : rng N) (pos : nat) :
  (upper_limit <= 0 ->
     ar_loop m a b function draws (Z.to_nat upper_limit) pos (ar_unassigned N)
     = Ok (ar_unassigned N, pos)
     /\ generate_acceptance_rejection m a b function upper_limit draws pos
        = Raise (UnboundLocalError "first_random"))
  /\ (forall r,
        generate_acceptance_rejection m a b function upper_limit draws pos
        = Ok r -> 1 <= upper_limit)
  /\ (1 <= upper_limit ->
      (forall x, exists image, function x = Ok image) ->
      (forall image, exists bound, div image m = Ok bound) ->
      exists r,
        generate_acceptance_rejection m a b function upper_limit draws pos
        = Ok r).
Proof.
  assert (Hzero : upper_limit <= 0 ->
            ar_loop m a b function draws (Z.to_nat upper_limit) pos
              (ar_unassigned N) = Ok (ar_unassigned N, pos)
            /\ generate_acceptance_rejection m a b function upper_limit
                 draws pos = Raise (UnboundLocalError "first_random")).
  { intros Hle. unfold generate_acceptance_rejection.
    replace (Z.to_nat upper_limit) with O by lia. split; reflexivity. }
  split; [exact Hzero|split].
  - intros r Hr. destruct (Z_le_gt_dec upper_limit 0) as [Hle|Hgt]; [|lia].
    destruct (Hzero Hle) as [_ Hraise]. congruence.
  - intros Hone Hf Hd. unfold generate_acceptance_rejection.
    replace (Z.to_nat upper_limit) with (S (Z.to_nat upper_limit - 1)) by lia.
    destruct (ar_loop_assigned m a b function draws
                (Z.to_nat upper_limit - 1) Hf Hd pos (ar_unassigned N))
      as (u1 & u2 & image & pos' & ->).
    exists (image, pos'). reflexivity.
Qed.

Lemma ar_needs_one_trial_witness :
  generate_acceptance_rejection (N := double) docstring_bound
    (Float64.of_Z 10) (Float64.of_Z 20) docstring_density 0 cycling_draws 0
  = Raise (UnboundLocalError "first_random").
Proof.
  refine (proj2 (proj1 (ar_needs_one_trial (N := double) docstring_bound
                          (Float64.of_Z 10) (Float64.of_Z 20) docstring_density
                          0 cycling_draws 0) _)).
  lia.
Defined.

(** When every one of the [k + 1] trials rejects, the function returns the
    density of the last, rejected, trial as if it had been accepted. *)
Lemma ar_exhausted_returns_stale {N : numeric} (m a b : N)
    (function : N -> result N) (upper_limit : Z) (draws : rng N)
    (pos k : nat) (image : N) :
  Z.to_nat upper_limit = S k ->
  (forall j, (j < S k)%nat -> exists w, rejects m a b function draws pos j w) ->
  rejects m a b function draws pos k image ->
  generate_acceptance_rejection m a b function upper_limit draws pos
  = Ok (image, (pos + 2 * S k)%nat).
Proof.
  intros Hn Hrej Hlast. unfold generate_acceptance_rejection. rewrite Hn.
  rewrite (ar_exhausted_loop m a b function draws k pos (ar_unassigned N)
             image Hrej Hlast).
  reflexivity.
Qed.

(** C5, the run that shows the defect: one trial is allowed, it rejects
    (0.75 <= 0.25 is false), and the call returns the rejected density 0.05
    instead of failing. *)
Theorem ar_exhaustion_is_silent :
  rejects (N := double) docstring_bound (Float64.of_Z 10) (Float64.of_Z 20)
    docstring_density cycling_draws 0 0 (Float64.ratio 1 20)
  /\ generate_acceptance_rejection (N := double) docstring_bound
       (Float64.of_Z 10) (Float64.of_Z 20) docstring_density 1 cycling_draws 0
     = Ok (Float64.ratio 1 20, 2%nat).
Proof. split; vm_compute; reflexivity. Qed.

(** ** Acceptance-rejection sampler, bound computed *)

Section GridMaximum.

Context {N : numeric}.

Lemma traverse_length {A B : Type} (f : A -> result B) (l : list A) :
  forall l', traverse f l = Ok l' -> length l' = length l.
Proof.
  induction l as [|x l IH]; intros l' H; simpl in H.
  - injection H as <-. reflexivity.
  - destruct (f x) as [y|e]; [|discriminate].
    destruct (traverse f l) as [ys|e]; [|discriminate].
    injection H as <-. simpl. f_equal. apply IH. reflexivity.
Qed.

Lemma max_from_in (l : list N) :
  forall largest v, max_from largest l = Ok v -> In v (largest :: l).
Proof.
  induction l as [|x l IH]; intros largest v H; simpl in H.
  - injection H as <-. left. reflexivity.
  - destruct (sym_ltb largest x) as [greater|e]; [|discriminate].
    cbn [Py.bind] in H. apply IH in H. destruct H as [H|H].
    + destruct greater; [right; left | left]; exact H.
    + right. right. exact H.
Qed.

Lemma py_max_in (l : list N) (v : N) : py_max l = Ok v -> In v l.
Proof.
  destruct l as [|x l]; simpl; [discriminate|]. apply max_from_in.
Qed.

Lemma linspace_points (start stop step : N) (n : nat) :
  div (sub stop start) (of_nat n) = Ok step ->
  exists grid,
    linspace start stop (S n) = Ok grid
    /\ length grid = S n
    /\ (forall i, (i < n)%nat ->
          nth i grid stop = add (mul (of_nat i) step) start)
    /\ nth n grid start = stop.
Proof.
  intros Hstep. unfold linspace.
  replace (S n - 1)%nat with n by lia. rewrite Hstep. cbn [Py.bind].
  eexists. split; [reflexivity|]. split; [|split].
  - rewrite length_app, length_map, length_seq. simpl. lia.
  - intros i Hi. rewrite app_nth1 by (rewrite length_map, length_seq; exact Hi).
    rewrite (nth_indep _ stop (add (mul (of_nat 0) step) start))
      by (rewrite length_map, length_seq; exact Hi).
    rewrite (map_nth (fun i => add (mul (of_nat i) step) start)).
    rewrite seq_nth by exact Hi. reflexivity.
  - rewrite app_nth2 by (rewrite length_map, length_seq; lia).
    rewrite length_map, length_seq, Nat.sub_diag. reflexivity.
Qed.

End GridMaximum.

Section AcceptanceRejectionComputedBound.

Context {N : numeric}.
Variables (m a b : N) (function : N -> result N) (draws : rng N).

Lemma ars_loop_step trials pos :
  ars_loop m a b function draws (S trials) pos
  = match ars_trial m a b function draws pos 0 with
    | Raise e => Raise e
    | Ok (image, accepted) =>
        if accepted then Ok (Some image, S (S pos))
        else ars_loop m a b function draws trials (S (S pos))
    end.
Proof.
  unfold ars_trial, ar_candidate, ars_first_random, draw_u2.
  rewrite Nat.add_0_r. simpl.
  destruct (function _) as [image|e]; simpl; [|reflexivity].
  destruct (sym_leb _ _) as [accepted|e]; simpl; reflexivity.
Qed.

Lemma ars_trial_shift pos k :
  ars_trial m a b function draws pos (S k)
  = ars_trial m a b function draws (S (S pos)) k.
Proof.
  unfold ars_trial, ars_first_random, draw_u2.
  replace (pos + 2 * S k)%nat with (S (S pos) + 2 * k)%nat by lia.
  reflexivity.
Qed.

Lemma ars_loop_skip k :
  forall trials pos,
    (forall j, (j < k)%nat ->
       exists w, ars_trial m a b function draws pos j = Ok (w, false)) ->
    ars_loop m a b function draws (k + trials) pos
    = ars_loop m a b function draws trials (pos + 2 * k).
Proof.
  induction k as [|k IH]; intros trials pos Hrej.
  - rewrite Nat.add_0_r. reflexivity.
  - destruct (Hrej O) as [w0 H0]; [lia|].
    change (S k + trials)%nat with (S (k + trials)).
    rewrite ars_loop_step, H0, IH.
    + f_equal. lia.
    + intros j Hj. destruct (Hrej (S j)) as [w Hw]; [lia|].
      exists w. rewrite <- ars_trial_shift. exact Hw.
Qed.

(** Exhaustion: every trial rejects and the result is [None]. *)
Lemma ars_loop_exhausted trials pos :
  (forall j, (j < trials)%nat ->
     exists w, ars_trial m a b function draws pos j = Ok (w, false)) ->
  ars_loop m a b function draws trials pos = Ok (None, (pos + 2 * trials)%nat).
Proof.
  intros Hrej.
  rewrite <- (Nat.add_0_r trials) at 1.
  rewrite (ars_loop_skip trials O pos Hrej). reflexivity.
Qed.


End AcceptanceRejectionComputedBound.


(** Exhaustion in the variant with the computed bound: when every trial
    rejects, it returns [None] and raises nothing. *)
Lemma ars_exhaustion_returns_none {N : numeric} (a b : N)
    (function : N -> result N) (upper_limit : Z) (draws : rng N)
    (pos : nat) (m : N) :
  grid_maximum a b function = Ok m ->
  (forall j, (j < Z.to_nat upper_limit)%nat ->
     exists w, ars_trial m a b function draws pos j = Ok (w, false)) ->
  generate_acceptance_rejection_with_symp a b function upper_limit draws pos
  = Ok (None, (pos + 2 * Z.to_nat upper_limit)%nat).
Proof.
  intros Hm Hrej. unfold generate_acceptance_rejection_with_symp.
  rewrite Hm. cbn [Py.bind]. apply ars_loop_exhausted. exact Hrej.
Qed.

(** ** Symbolic inversion helper *)

(** C7 as stated fails: when the solver raises [PolynomialError] the
    function returns [None]; nothing is raised to the caller. *)
Lemma inversion_failure_is_swallowed :
  integrate_and_find_inverse unsolvable_engine tt = Ok None
  /\ forall e, integrate_and_find_inverse unsolvable_engine tt <> Raise e.
Proof. split; [reflexivity | intros e; discriminate]. Qed.

(** A solver that finds no solution: the function returns the pair of the
    integral and the empty list. *)
Lemma inversion_empty_is_success :
  integrate_and_find_inverse fruitless_engine tt = Ok (Some (tt, [])).
Proof. reflexivity. Qed.

(** C7, amended: once the integral [F] is computed, a [PolynomialError] of
    the solver makes the function return [None] without raising; any other
    exception of the solver reaches the caller unchanged; and a list of
    solutions, empty or not, is returned in the pair [(F, solutions)]. *)
Theorem inversion_outcomes (E : engine) (function integrated : expr E) :
  integrate E function = Ok integrated ->
  (solve E integrated = Raise PolynomialError ->
     integrate_and_find_inverse E function = Ok None)
  /\ (forall e, e <> PolynomialError ->
        solve E integrated = Raise e ->
        integrate_and_find_inverse E function = Raise e)
  /\ (forall inverse,
        solve E integrated = Ok inverse ->
        integrate_and_find_inverse E function
        = Ok (Some (integrated, inverse))).
Proof.
  intros Hint. unfold integrate_and_find_inverse. rewrite Hint. cbn [Py.bind].
  split; [|split].
  - intros ->. reflexivity.
  - intros e Hne ->. destruct e; try reflexivity. congruence.
  - intros inverse ->. reflexivity.
Qed.

Lemma inversion_outcomes_witness :
  integrate_and_find_inverse unsolvable_engine tt = Ok None.
Proof.
  refine (proj1 (inversion_outcomes unsolvable_engine tt tt _) _);
    reflexivity.
Defined.

(** ** Inverse-transform sampler *)

Section InverseTransformLoop.

Context {N : numeric}.
Variables (transform : N -> N) (lower_bound upper_bound : option N).
Variables (n_samples : Z) (draws : rng N).

(** What the loop returns extends the list it was entered with by kept
    candidates only, up to [n_samples] elements. *)
Lemma its_loop_spec fuel :
  forall pos rvs batch pos',
    its_loop transform lower_bound upper_bound n_samples draws fuel pos rvs
    = Some (batch, pos') ->
    (exists new,
       batch = rvs ++ new
       /\ Forall (fun rv =>
                    out_of_range lower_bound upper_bound rv = false
                    /\ exists i, rv = transform (uniform zero one (draws i)))
            new)
    /\ Z.of_nat (length batch) = Z.max n_samples (Z.of_nat (length rvs)).
Proof.
  induction fuel as [|fuel IH]; intros pos rvs batch pos' H; simpl in H.
  - discriminate.
  - destruct (Z.of_nat (length rvs) <? n_samples) eqn:Hlen.
    + apply Z.ltb_lt in Hlen.
      destruct (out_of_range lower_bound upper_bound
                  (transform (uniform zero one (draws pos)))) eqn:Hout.
      * apply IH in H. exact H.
      * apply IH in H. destruct H as [(new & -> & Hnew) Hmax]. split.
        -- exists (transform (uniform zero one (draws pos)) :: new).
           rewrite <- app_assoc. split; [reflexivity|].
           constructor; [split; [exact Hout | exists pos; reflexivity]|].
           exact Hnew.
        -- rewrite Hmax, length_app. simpl length. lia.
    + apply Z.ltb_ge in Hlen. injection H as <- <-. split.
      * exists []. rewrite app_nil_r. split; [reflexivity | constructor].
      * lia.
Qed.

(** The loop ends within [k + 1] tests as soon as the [k] next draws hold
    enough kept candidates. *)
Lemma its_loop_terminates k :
  forall pos rvs,
    (Z.to_nat n_samples
     <= length rvs + kept transform lower_bound upper_bound draws pos k)%nat ->
    exists batch pos',
      its_loop transform lower_bound upper_bound n_samples draws (S k) pos rvs
      = Some (batch, pos').
Proof.
  induction k as [|k IH]; intros pos rvs Hk.
  - simpl in *. destruct (Z.of_nat (length rvs) <? n_samples) eqn:Hlen.
    + apply Z.ltb_lt in Hlen. lia.
    + eauto.
  - change (its_loop transform lower_bound upper_bound n_samples draws
              (S (S k)) pos rvs)
      with (if Z.of_nat (length rvs) <? n_samples then
              if out_of_range lower_bound upper_bound
                   (transform (uniform zero one (draws pos)))
              then its_loop transform lower_bound upper_bound n_samples draws
                     (S k) (S pos) rvs
              else its_loop transform lower_bound upper_bound n_samples draws
                     (S k) (S pos)
                     (rvs ++ [transform (uniform zero one (draws pos))])
            else Some (rvs, pos)).
    destruct (Z.of_nat (length rvs) <? n_samples); [|eauto].
    simpl kept in Hk.
    destruct (out_of_range lower_bound upper_bound
                (transform (uniform zero one (draws pos)))).
    + apply IH. lia.
    + apply IH. rewrite length_app. simpl length. lia.
Qed.

End InverseTransformLoop.

(** On doubles that are numbers, [x < y] failing means [y <= x]. *)
Lemma SFcompare_antisym (x y : spec_float) (c : comparison) :
  SFcompare x y = Some c -> SFcompare y x = Some (CompOpp c).
Proof.
  destruct x as [sx|sx| |sx mx ex], y as [sy|sy| |sy my ey]; simpl;
    try discriminate;
    try (destruct sx; intros H; injection H as <-; reflexivity);
    try (destruct sy; intros H; injection H as <-; reflexivity);
    try (destruct sx, sy; intros H; injection H as <-; reflexivity).
  destruct sx, sy; intros H; injection H as <-; try reflexivity;
    rewrite (Z.compare_antisym ex ey); destruct (ex ?= ey); simpl;
    try reflexivity;
    rewrite (Pos.compare_cont_antisym mx my Eq); reflexivity.
Qed.

Lemma float_not_lt_le (x y : Float64.float) :
  Float64.is_nan x = false -> Float64.is_nan y = false ->
  Float64.ltb x y = false -> Float64.leb y x = true.
Proof.
  unfold Float64.ltb, Float64.leb, SFltb, SFleb. intros Hx Hy H.
  destruct (SFcompare x y) as [c|] eqn:Hc.
  - rewrite (SFcompare_antisym x y c Hc).
    destruct c; simpl; try reflexivity. discriminate.
  - destruct x, y; simpl in *; try discriminate; destruct s; discriminate.
Qed.

(** A run of the loop from the empty list, with both bounds set, on
    doubles: as many candidates as the count asks for, each within the
    bounds unless it is NaN. *)
Lemma its_loop_clamped (transform : double -> double) (lo hi : double)
    (n_samples : Z) (draws : rng double) (fuel pos : nat)
    (batch : list double) (pos' : nat) :
  Float64.is_nan lo = false -> Float64.is_nan hi = false ->
  its_loop transform (Some lo) (Some hi) n_samples draws fuel pos []
  = Some (batch, pos') ->
  Z.of_nat (length batch) = Z.max 0 n_samples
  /\ Forall (fun rv =>
               Float64.is_nan rv = false ->
               Float64.leb lo rv = true /\ Float64.leb rv hi = true)
       batch.
Proof.
  intros Hlo Hhi Hrun.
  destruct (its_loop_spec transform (Some lo) (Some hi) n_samples draws
              fuel pos [] batch pos' Hrun) as [(new & -> & Hnew) Hlen].
  change ([] ++ new) with new in *. simpl length in Hlen.
  split; [etransitivity; [exact Hlen | lia]|].
  eapply Forall_impl; [|exact Hnew].
  intros rv [Hout _] Hnum. unfold out_of_range in Hout.
  apply orb_false_iff in Hout. destruct Hout as [H1 H2].
  split; apply float_not_lt_le; auto.
Qed.

(** C8 as stated fails twice.  A candidate that is NaN passes both
    comparisons of the clamp test and is emitted, though it lies in no
    interval; and for the count -1 the batch has no element, not -1. *)
Lemma clamped_batch_emits_nan :
  user_inverse_transform_sampling_from_inverse (N := double) 1 nan_inverse
    (Some (Float64.ratio 1 2 : double)) (Some (Float64.of_Z 1 : double))
    cycling_draws 2 0
  = Some (Ok ([S754_nan], 1%nat))
  /\ Float64.leb (Float64.ratio 1 2) S754_nan = false
  /\ Float64.leb S754_nan (Float64.of_Z 1) = false
  /\ user_inverse_transform_sampling_from_inverse (N := double) (-1)
       (fun u => u) (Some (Float64.ratio 1 2 : double))
       (Some (Float64.of_Z 1 : double)) cycling_draws 2 0
     = Some (Ok ([], 0%nat)).
Proof. repeat split; vm_compute; reflexivity. Qed.

(** C8, amended: with both bounds set, to numbers, a returned batch of
    either inverse-transform variant has exactly [n_samples] elements, none
    for a count below 0, and each element that is a number lies within
    [[lower_bound, upper_bound]]; a candidate that is NaN is not filtered.
    A batch is returned as soon as the draws hold [n_samples] candidates
    that the clamp keeps (the loop has no other exit). *)
Theorem clamped_batches_within_bounds {params : Type}
    (stats : catalog double params) (dist_name : string) (args : params)
    (inverse : double -> double) (n_samples : Z) (lo hi : double)
    (draws : rng double) :
  Float64.is_nan lo = false -> Float64.is_nan hi = false ->
  (forall fuel pos batch pos',
     inverse_transform_sampling stats n_samples dist_name (Some lo) (Some hi)
       args draws fuel pos = Some (Ok (batch, pos')) ->
     Z.of_nat (length batch) = Z.max 0 n_samples
     /\ Forall (fun rv =>
                  Float64.is_nan rv = false ->
                  Float64.leb lo rv = true /\ Float64.leb rv hi = true)
          batch)
  /\ (forall fuel pos batch pos',
        user_inverse_transform_sampling_from_inverse n_samples inverse
          (Some lo) (Some hi) draws fuel pos = Some (Ok (batch, pos')) ->
        Z.of_nat (length batch) = Z.max 0 n_samples
        /\ Forall (fun rv =>
                     Float64.is_nan rv = false ->
                     Float64.leb lo rv = true /\ Float64.leb rv hi = true)
             batch)
  /\ (forall ppf k pos,
        stats dist_name = Some ppf ->
        (Z.to_nat n_samples
         <= kept (ppf args) (Some lo) (Some hi) draws pos k)%nat ->
        exists batch pos',
          inverse_transform_sampling stats n_samples dist_name (Some lo)
            (Some hi) args draws (S k) pos = Some (Ok (batch, pos')))
  /\ (forall k pos,
        (Z.to_nat n_samples
         <= kept inverse (Some lo) (Some hi) draws pos k)%nat ->
        exists batch pos',
          user_inverse_transform_sampling_from_inverse n_samples inverse
            (Some lo) (Some hi) draws (S k) pos = Some (Ok (batch, pos'))).
Proof.
  intros Hlo Hhi. split; [|split; [|split]].
  - intros fuel pos batch pos' Hrun. unfold inverse_transform_sampling in Hrun.
    destruct (stats dist_name) as [ppf|] eqn:Hdist; [|discriminate].
    destruct (its_loop (ppf args) (Some lo) (Some hi) n_samples draws fuel
                pos []) as [[batch0 pos0]|] eqn:Hloop; [|discriminate].
    simpl in Hrun. injection Hrun as <- <-.
    apply (its_loop_clamped (ppf args) lo hi n_samples draws fuel pos
             batch0 pos0); auto.
  - intros fuel pos batch pos' Hrun.
    unfold user_inverse_transform_sampling_from_inverse in Hrun.
    destruct (its_loop inverse (Some lo) (Some hi) n_samples draws fuel
                pos []) as [[batch0 pos0]|] eqn:Hloop; [|discriminate].
    simpl in Hrun. injection Hrun as <- <-.
    apply (its_loop_clamped inverse lo hi n_samples draws fuel pos
             batch0 pos0); auto.
  - intros ppf k pos Hdist Hk. unfold inverse_transform_sampling.
    rewrite Hdist.
    destruct (its_loop_terminates (ppf args) (Some lo) (Some hi) n_samples
                draws k pos []) as (batch & pos' & ->); [exact Hk|].
    exists batch, pos'. reflexivity.
  - intros k pos Hk. unfold user_inverse_transform_sampling_from_inverse.
    destruct (its_loop_terminates inverse (Some lo) (Some hi) n_samples
                draws k pos []) as (batch & pos' & ->); [exact Hk|].
    exists batch, pos'. reflexivity.
Qed.

Lemma cycling_draws_numbers (i : nat) :
  Float64.is_nan (uniform (N := double) zero one (cycling_draws i)) = false.
Proof.
  unfold cycling_draws.
  destruct (i mod 4)%nat as [|[|[|[|?]]]]; vm_compute; reflexivity.
Qed.

Lemma clamped_batches_within_bounds_witness :
  Z.of_nat (length [Float64.ratio 3 4; Float64.ratio 3 4]) = Z.max 0 2
  /\ Forall (fun rv =>
               Float64.is_nan rv = false ->
               Float64.leb (Float64.ratio 1 2) rv = true
               /\ Float64.leb rv (Float64.of_Z 1) = true)
       [Float64.ratio 3 4; Float64.ratio 3 4].
Proof.
  refine (proj1 (clamped_batches_within_bounds uniform_catalog "uniform" tt
                   (fun u => u) 2 (Float64.ratio 1 2) (Float64.of_Z 1)
                   cycling_draws _ _) 4%nat 0%nat _ 3%nat _).
  - vm_compute. reflexivity.
  - vm_compute. reflexivity.
  - vm_compute. reflexivity.
Defined.

(** ** Doubles: the midpoint of a state stays below one

    The facts of binary64 arithmetic behind the normalized generator: an
    integer below 2^53 converts exactly, adding one half to an integer
    below 2^52 is exact, and the quotient by the modulus rounds to a double
    that is still below one. *)

Lemma pos_iter_xO (p k : positive) :
  Zpos (Pos.iter xO p k) = Zpos p * 2 ^ Zpos k.
Proof.
  rewrite Pos2Nat.inj_iter, <- (positive_nat_Z k).
  induction (Pos.to_nat k) as [|n IH].
  - change (Z.of_nat 0) with 0. rewrite Z.pow_0_r, Z.mul_1_r. reflexivity.
  - rewrite Nat2Z.inj_succ, Z.pow_succ_r by lia. simpl nat_rect.
    rewrite Pos2Z.inj_xO, IH. lia.
Qed.

Lemma digits2_pos_bounds (p : positive) :
  2 ^ (Zpos (digits2_pos p) - 1) <= Zpos p < 2 ^ Zpos (digits2_pos p).
Proof.
  induction p as [p IH|p IH|]; simpl digits2_pos.
  - rewrite Pos2Z.inj_succ.
    replace (Z.succ (Zpos (digits2_pos p)) - 1) with (Z.succ (Zpos (digits2_pos p) - 1)) by lia.
    rewrite !Z.pow_succ_r by lia. lia.
  - rewrite Pos2Z.inj_succ.
    replace (Z.succ (Zpos (digits2_pos p)) - 1) with (Z.succ (Zpos (digits2_pos p) - 1)) by lia.
    rewrite !Z.pow_succ_r by lia. lia.
  - simpl. lia.
Qed.

Lemma digits2_pos_unique (p : positive) (d : Z) :
  2 ^ (d - 1) <= Zpos p < 2 ^ d -> Zpos (digits2_pos p) = d.
Proof.
  intros [Hlo Hhi]. pose proof (digits2_pos_bounds p) as [Hlo' Hhi'].
  assert (0 < d).
  { destruct (Z_lt_le_dec 0 d); [assumption|].
    assert (2 ^ d <= 2 ^ 0) by (apply Z.pow_le_mono_r; lia). simpl in *. lia. }
  destruct (Z_lt_le_dec (Zpos (digits2_pos p)) d) as [Hlt|Hge].
  - assert (2 ^ Zpos (digits2_pos p) <= 2 ^ (d - 1)) by (apply Z.pow_le_mono_r; lia). lia.
  - destruct (Z_lt_le_dec d (Zpos (digits2_pos p))) as [Hlt|Hge']; [|lia].
    assert (2 ^ d <= 2 ^ (Zpos (digits2_pos p) - 1)) by (apply Z.pow_le_mono_r; lia). lia.
Qed.

Lemma iter_pos_nat {A : Type} (f : A -> A) (p : positive) :
  forall x, iter_pos f p x = Nat.iter (Pos.to_nat p) f x.
Proof.
  induction p as [p IH|p IH|]; intros x; simpl iter_pos.
  - rewrite !IH, Pos2Nat.inj_xI, <- Nat.iter_add, <- Nat.iter_succ_r.
    f_equal. lia.
  - rewrite !IH, Pos2Nat.inj_xO, <- Nat.iter_add. f_equal. lia.
  - reflexivity.
Qed.

Lemma shr_exact (M k : positive) :
  iter_pos shr_1 k {| shr_m := Zpos (Pos.iter xO M k); shr_r := false; shr_s := false |}
  = {| shr_m := Zpos M; shr_r := false; shr_s := false |}.
Proof.
  rewrite iter_pos_nat, Pos2Nat.inj_iter.
  induction (Pos.to_nat k) as [|n IH].
  - reflexivity.
  - rewrite Nat.iter_succ_r. simpl nat_rect. simpl shr_1. exact IH.
Qed.

Lemma shr_fexp_canonical (M : positive) (e : Z) (l : location) :
  Zpos (digits2_pos M) = 53 -> -1074 <= e ->
  shr_fexp 53 1024 (Zpos M) e l = (shr_record_of_loc (Zpos M) l, e).
Proof.
  intros Hd He. unfold shr_fexp, fexp, emin. simpl Zdigits2. rewrite Hd.
  replace (Z.max (53 + e - 53) (3 - 1024 - 53) - e) with 0 by lia.
  reflexivity.
Qed.

Lemma round_canonical (M : positive) (e : Z) :
  Zpos (digits2_pos M) = 53 -> -1074 <= e <= 971 ->
  binary_round_aux 53 1024 false (Zpos M) e loc_Exact = S754_finite false M e.
Proof.
  intros Hd He. unfold binary_round_aux.
  rewrite shr_fexp_canonical by (assumption || lia).
  cbn [shr_record_of_loc shr_m loc_of_shr_record round_nearest_even].
  rewrite shr_fexp_canonical by (assumption || lia).
  cbn [shr_record_of_loc shr_m].
  replace (e <=? 1024 - 53) with true by (symmetry; apply Z.leb_le; lia).
  reflexivity.
Qed.

Lemma digits2_pos_shifted (M : positive) (k : Z) :
  Zpos (digits2_pos M) = 53 -> 0 <= k ->
  forall s, Zpos s = Zpos M * 2 ^ k -> Zpos (digits2_pos s) = 53 + k.
Proof.
  intros Hd Hk s Hs. apply digits2_pos_unique. rewrite Hs.
  pose proof (digits2_pos_bounds M) as HM. rewrite Hd in HM.
  replace (53 + k - 1) with (52 + k) by lia.
  rewrite !Z.pow_add_r by lia.
  assert (0 < 2 ^ k) by (apply Z.pow_pos_nonneg; lia).
  change (53 - 1) with 52 in HM. nia.
Qed.

Lemma round_exact (s M : positive) (e k : Z) :
  Zpos (digits2_pos M) = 53 -> 0 <= k -> Zpos s = Zpos M * 2 ^ k ->
  -1074 <= e + k <= 971 ->
  binary_round_aux 53 1024 false (Zpos s) e loc_Exact
  = S754_finite false M (e + k).
Proof.
  intros Hd Hk Hs He.
  destruct k as [|k|k]; [| |lia].
  - rewrite Z.pow_0_r, Z.mul_1_r in Hs. injection Hs as ->.
    rewrite Z.add_0_r in *. apply round_canonical; assumption.
  - rewrite <- pos_iter_xO in Hs. injection Hs as ->.
    pose proof (round_canonical M (e + Zpos k) Hd He) as Hcan.
    unfold binary_round_aux in *.
    rewrite shr_fexp_canonical in Hcan by (assumption || lia).
    cbn [shr_record_of_loc shr_m loc_of_shr_record round_nearest_even] in Hcan.
    unfold shr_fexp at 1. unfold fexp, emin. simpl Zdigits2.
    rewrite (digits2_pos_shifted M (Zpos k) Hd Hk _ (pos_iter_xO M k)).
    replace (Z.max (53 + Zpos k + e - 53) (3 - 1024 - 53) - e) with (Zpos k) by lia.
    cbn [shr shr_record_of_loc]. rewrite shr_exact.
    cbn [shr_m loc_of_shr_record round_nearest_even]. exact Hcan.
Qed.

Lemma shl_align_spec (p : positive) (e e' : Z) :
  e' <= e ->
  exists M, shl_align p e e' = (M, e') /\ Zpos M = Zpos p * 2 ^ (e - e').
Proof.
  intros Hle. unfold shl_align. destruct (e' - e) as [|k|k] eqn:Hk.
  - assert (e' = e) as -> by lia. exists p. rewrite Z.sub_diag, Z.pow_0_r.
    split; [reflexivity | lia].
  - lia.
  - exists (Pos.iter xO p k). split; [reflexivity|].
    rewrite pos_iter_xO. f_equal. f_equal. lia.
Qed.

Lemma shl_align_id (p : positive) (e e' : Z) :
  e <= e' -> shl_align p e e' = (p, e).
Proof.
  intros Hle. unfold shl_align. destruct (e' - e) as [|k|k] eqn:Hk;
    [reflexivity | reflexivity | lia].
Qed.

Lemma pow2_digits_le (z d d' : Z) :
  2 ^ (d - 1) <= z < 2 ^ d' -> 0 < d -> d <= d'.
Proof.
  intros [Hlo Hhi] Hd. destruct (Z_lt_le_dec d' d) as [Hlt|]; [|assumption].
  destruct (Z_lt_le_dec d' 0).
  - rewrite (Z.pow_neg_r 2 d') in Hhi by assumption.
    assert (0 < 2 ^ (d - 1)) by (apply Z.pow_pos_nonneg; lia). lia.
  - assert (2 ^ d' <= 2 ^ (d - 1)) by (apply Z.pow_le_mono_r; lia). lia.
Qed.

(** The double nearest to a positive integer below 2^53 is the integer
    itself, with its significand shifted to 53 bits. *)
Lemma of_Z_normal (z : Z) :
  0 < z < 2 ^ 53 ->
  exists M d,
    Float64.of_Z z = S754_finite false M (d - 53)
    /\ 1 <= d <= 53
    /\ 2 ^ (d - 1) <= z < 2 ^ d
    /\ Zpos M = z * 2 ^ (53 - d)
    /\ Zpos (digits2_pos M) = 53.
Proof.
  intros [Hpos Hlt]. destruct z as [|p|p]; try lia.
  pose proof (digits2_pos_bounds p) as Hb.
  set (d := Zpos (digits2_pos p)) in *.
  assert (Hd : 1 <= d <= 53).
  { split; [unfold d; lia|]. apply (pow2_digits_le (Zpos p));
      [split; [apply Hb | exact Hlt] | unfold d; lia]. }
  destruct (shl_align_spec p 0 (d - 53)) as (M & HM & HMz); [lia|].
  replace (0 - (d - 53)) with (53 - d) in HMz by lia.
  assert (HdM : Zpos (digits2_pos M) = 53).
  { apply digits2_pos_unique. rewrite HMz.
    replace (2 ^ (53 - 1)) with (2 ^ (d - 1) * 2 ^ (53 - d))
      by (rewrite <- Z.pow_add_r by lia; f_equal; lia).
    replace (2 ^ 53) with (2 ^ d * 2 ^ (53 - d))
      by (rewrite <- Z.pow_add_r by lia; f_equal; lia).
    assert (0 < 2 ^ (53 - d)) by (apply Z.pow_pos_nonneg; lia). nia. }
  exists M, d. repeat split; try lia; try assumption.
  unfold Float64.of_Z, binary_normalize, binary_round, Float64.prec,
    Float64.emax, fexp, emin.
  fold d. replace (Z.max (d + 0 - 53) (3 - 1024 - 53)) with (d - 53) by lia.
  rewrite HM. apply round_canonical; [assumption | lia].
Qed.

Lemma add_half_normal (v : Z) :
  0 <= v < 2 ^ 52 ->
  exists N d,
    Float64.add (Float64.of_Z v) Float64.half = S754_finite false N (d - 54)
    /\ 1 <= d <= 53
    /\ 2 ^ (d - 1) <= 2 * v + 1 < 2 ^ d
    /\ Zpos N = (2 * v + 1) * 2 ^ (53 - d)
    /\ Zpos (digits2_pos N) = 53.
Proof.
  intros [Hv0 Hv]. change (2 ^ 52) with 4503599627370496 in Hv.
  destruct (Z.eq_dec v 0) as [->|Hnz].
  - exists 4503599627370496%positive, 1. repeat split; try reflexivity; lia.
  - destruct (of_Z_normal v) as (M & dv & HofZ & Hdv & Hvb & HM & HdM);
      [change (2 ^ 53) with 9007199254740992; lia|].
    remember (Z.to_pos (2 * v + 1)) as P eqn:HP.
    assert (HPz : Zpos P = 2 * v + 1) by (subst P; rewrite Z2Pos.id; lia).
    pose proof (digits2_pos_bounds P) as Hb. rewrite HPz in Hb.
    set (d := Zpos (digits2_pos P)) in *.
    assert (Hd : 1 <= d <= 53).
    { split; [unfold d; lia|]. apply (pow2_digits_le (2 * v + 1));
        [split; [apply Hb | change (2 ^ 53) with 9007199254740992; lia]
        | unfold d; lia]. }
    destruct (shl_align_spec P 0 (d - 53)) as (N & _ & HN); [lia|].
    rewrite HPz in HN. replace (0 - (d - 53)) with (53 - d) in HN by lia.
    assert (HdN : Zpos (digits2_pos N) = 53).
    { apply digits2_pos_unique. rewrite HN.
      replace (2 ^ (53 - 1)) with (2 ^ (d - 1) * 2 ^ (53 - d))
        by (rewrite <- Z.pow_add_r by lia; f_equal; lia).
      replace (2 ^ 53) with (2 ^ d * 2 ^ (53 - d))
        by (rewrite <- Z.pow_add_r by lia; f_equal; lia).
      assert (0 < 2 ^ (53 - d)) by (apply Z.pow_pos_nonneg; lia). nia. }
    exists N, d. repeat split; try lia; try assumption.
    rewrite HofZ. unfold Float64.add, Float64.half, SFadd.
    replace (Z.min (dv - 53) (-53)) with (-53) by lia.
    destruct (shl_align_spec M (dv - 53) (-53)) as (M' & HM' & HM'z); [lia|].
    rewrite HM', shl_align_id by lia. cbn [fst cond_Zopp].
    replace (dv - 53 - -53) with dv in HM'z by lia.
    assert (Hsum : Zpos M' + 4503599627370496
                   = Zpos N * 2 ^ (d - 1)).
    { rewrite HM'z, HM, HN, <- !Z.mul_assoc, <- !Z.pow_add_r by lia.
      replace (53 - dv + dv) with 53 by lia.
      replace (53 - d + (d - 1)) with 52 by lia.
      change (2 ^ 53) with 9007199254740992.
      change (2 ^ 52) with 4503599627370496. lia. }
    change (Zpos M' + 4503599627370496) with (Zpos (M' + 4503599627370496)) in *.
    unfold Float64.prec, Float64.emax, binary_normalize, binary_round, fexp, emin.
    rewrite (digits2_pos_shifted N (d - 1) HdN ltac:(lia) _ Hsum).
    replace (Z.max (53 + (d - 1) + -53 - 53) (3 - 1024 - 53)) with (d - 54) by lia.
    rewrite shl_align_id by lia.
    rewrite (round_exact _ N (-53) (d - 1) HdN ltac:(lia) Hsum) by lia.
    f_equal. lia.
Qed.

Lemma div_core_normal (N M : positive) (ex ey : Z) :
  Zpos (digits2_pos N) = 53 -> Zpos (digits2_pos M) = 53 ->
  -1021 <= ex - ey - 53 ->
  SFdiv_core_binary 53 1024 (Zpos N) ex (Zpos M) ey
  = (Zpos N * 2 ^ 53 / Zpos M, ex - ey - 53,
     new_location (Zpos M) ((Zpos N * 2 ^ 53) mod Zpos M)).
Proof.
  intros HN HM He. unfold SFdiv_core_binary, fexp, emin. simpl Zdigits2.
  rewrite HN, HM.
  replace (Z.min (Z.max (53 + ex - (53 + ey) - 53) (3 - 1024 - 53)) (ex - ey))
    with (ex - ey - 53) by lia.
  replace (ex - ey - (ex - ey - 53)) with 53 by lia.
  rewrite Z.shiftl_mul_pow2 by lia.
  unfold Z.div, Z.modulo.
  destruct (Z.div_eucl (Zpos N * 2 ^ 53) (Zpos M)) as [q r]. reflexivity.
Qed.

Lemma binary_round_aux_finish (mx ex : Z) (lx : location) :
  binary_round_aux 53 1024 false mx ex lx
  = let '(mrs, e) := shr_fexp 53 1024 mx ex lx in
    round_finish (round_nearest_even (shr_m mrs) (loc_of_shr_record mrs)) e.
Proof. reflexivity. Qed.

Lemma round_finish_spec (q : positive) (e : Z) :
  2 ^ 52 <= Zpos q <= 2 ^ 53 -> -1074 <= e -> e + 1 <= 971 ->
  exists m' e',
    round_finish (Zpos q) e = S754_finite false m' e'
    /\ e <= e' <= e + 1
    /\ (Zpos q < 2 ^ 53 -> e' = e).
Proof.
  intros [Hlo Hhi] He He'. unfold round_finish.
  destruct (Z.eq_dec (Zpos q) (2 ^ 53)) as [Heq|Hne].
  - change (2 ^ 53) with (Zpos 9007199254740992) in Heq. injection Heq as ->.
    unfold shr_fexp, fexp, emin. simpl Zdigits2.
    replace (Z.max (54 + e - 53) (3 - 1024 - 53) - e) with 1 by lia.
    cbn [shr shr_record_of_loc iter_pos shr_1 shr_m].
    replace (e + 1 <=? 1024 - 53) with true by (symmetry; apply Z.leb_le; lia).
    do 2 eexists. split; [reflexivity|]. split; [lia|].
    change (2 ^ 53) with 9007199254740992. lia.
  - assert (Hd : Zpos (digits2_pos q) = 53)
      by (apply digits2_pos_unique; change (53 - 1) with 52; lia).
    rewrite shr_fexp_canonical by (assumption || lia).
    cbn [shr_record_of_loc shr_m].
    replace (e <=? 1024 - 53) with true by (symmetry; apply Z.leb_le; lia).
    do 2 eexists. split; [reflexivity|]. lia.
Qed.

Lemma loc_of_shr_record_of_loc (m : Z) (l : location) :
  loc_of_shr_record (shr_record_of_loc m l) = l.
Proof. destruct l as [|[]]; reflexivity. Qed.

Lemma shr_m_of_loc (m : Z) (l : location) : shr_m (shr_record_of_loc m l) = m.
Proof. destruct l as [|[]]; reflexivity. Qed.

Lemma round_nearest_even_step (m : Z) (l : location) :
  round_nearest_even m l = m
  \/ (round_nearest_even m l = m + 1 /\ l <> loc_Exact).
Proof.
  destruct l as [|[]]; simpl; auto.
  - destruct (Z.even m); [left; reflexivity | right; split; [reflexivity | discriminate]].
  - right. split; [reflexivity | discriminate].
Qed.

Lemma round_53 (q : positive) (e : Z) (l : location) :
  Zpos (digits2_pos q) = 53 -> -1074 <= e -> e + 1 <= 971 ->
  exists m' e',
    binary_round_aux 53 1024 false (Zpos q) e l = S754_finite false m' e'
    /\ e <= e' <= e + 1
    /\ (Zpos q < 2 ^ 53 - 1 \/ l = loc_Exact -> e' = e).
Proof.
  intros Hd He He'. pose proof (digits2_pos_bounds q) as Hb. rewrite Hd in Hb.
  change (53 - 1) with 52 in Hb.
  rewrite binary_round_aux_finish, shr_fexp_canonical by assumption.
  rewrite shr_m_of_loc, loc_of_shr_record_of_loc.
  destruct (round_nearest_even_step (Zpos q) l) as [->|[-> Hl]].
  - destruct (round_finish_spec q e) as (m' & e' & Hr & Hrange & Hsame);
      [lia | assumption | assumption |].
    exists m', e'. repeat split; try assumption; try lia.
  - change (Zpos q + 1) with (Zpos (q + 1)).
    destruct (round_finish_spec (q + 1) e) as (m' & e' & Hr & Hrange & Hsame);
      [lia | assumption | assumption |].
    exists m', e'. repeat split; try assumption; try lia.
    intros [Hlt|Hex]; [apply Hsame; lia | contradiction].
Qed.

Lemma round_54 (q : positive) (e : Z) (l : location) :
  Zpos (digits2_pos q) = 54 -> -1075 <= e -> e + 2 <= 971 ->
  exists m' e',
    binary_round_aux 53 1024 false (Zpos q) e l = S754_finite false m' e'
    /\ e + 1 <= e' <= e + 2
    /\ (Zpos q <= 2 ^ 54 - 2 -> e' = e + 1).
Proof.
  intros Hd He He'. pose proof (digits2_pos_bounds q) as Hb. rewrite Hd in Hb.
  change (54 - 1) with 53 in Hb.
  change (2 ^ 53) with 9007199254740992 in *.
  change (2 ^ 54) with 18014398509481984 in *.
  rewrite binary_round_aux_finish. unfold shr_fexp, fexp, emin.
  simpl Zdigits2. rewrite Hd.
  replace (Z.max (54 + e - 53) (3 - 1024 - 53) - e) with 1 by lia.
  cbn [shr iter_pos].
  destruct q as [p|p|]; [| |lia].
  - (* odd: the round bit is set *)
    assert (Hrec : exists l',
               shr_1 (shr_record_of_loc (Zpos p~1) l)
               = shr_record_of_loc (Zpos p) l').
    { destruct l as [|[]]; simpl;
        [exists (loc_Inexact Eq) | exists (loc_Inexact Gt)
         | exists (loc_Inexact Gt) | exists (loc_Inexact Gt)]; reflexivity. }
    destruct Hrec as [l' ->].
    rewrite shr_m_of_loc, loc_of_shr_record_of_loc.
    destruct (round_nearest_even_step (Zpos p) l') as [->|[-> Hl]].
    + destruct (round_finish_spec p (e + 1)) as (m' & e' & Hr & Hrange & Hsame);
        [change (2 ^ 52) with 4503599627370496;
         change (2 ^ 53) with 9007199254740992; lia | lia | lia |].
      exists m', e'. split; [exact Hr|]. split; [lia|].
      (intros _; apply Hsame; change (2 ^ 53) with 9007199254740992; lia).
    + change (Zpos p + 1) with (Zpos (p + 1)).
      destruct (round_finish_spec (p + 1) (e + 1))
        as (m' & e' & Hr & Hrange & Hsame);
        [change (2 ^ 52) with 4503599627370496;
         change (2 ^ 53) with 9007199254740992; lia | lia | lia |].
      exists m', e'. split; [exact Hr|]. split; [lia|].
      (intros Hq; apply Hsame; change (2 ^ 53) with 9007199254740992; lia).
  - (* even: the round bit is clear, the significand is kept *)
    assert (Hrec : exists l',
               shr_1 (shr_record_of_loc (Zpos p~0) l)
               = shr_record_of_loc (Zpos p) l'
               /\ round_nearest_even (Zpos p) l' = Zpos p).
    { destruct l as [|[]]; simpl;
        [exists loc_Exact | exists (loc_Inexact Lt)
         | exists (loc_Inexact Lt) | exists (loc_Inexact Lt)];
        split; reflexivity. }
    destruct Hrec as (l' & -> & Hround).
    rewrite shr_m_of_loc, loc_of_shr_record_of_loc, Hround.
    destruct (round_finish_spec p (e + 1)) as (m' & e' & Hr & Hrange & Hsame);
      [change (2 ^ 52) with 4503599627370496;
       change (2 ^ 53) with 9007199254740992; lia | lia | lia |].
    exists m', e'. split; [exact Hr|]. split; [lia|].
    (intros _; apply Hsame; change (2 ^ 53) with 9007199254740992; lia).
Qed.

Lemma new_location_zero (n : Z) : new_location n 0 = loc_Exact.
Proof.
  unfold new_location, new_location_even, new_location_odd.
  destruct (Z.even n); reflexivity.
Qed.

Lemma finite_below_one (m : positive) (e : Z) :
  e <= -53 -> Float64.in_open_unit (S754_finite false m e) = true.
Proof.
  intros He. unfold Float64.in_open_unit, Float64.ltb, SFltb, Float64.zero,
    Float64.one. cbv beta iota delta [SFcompare andb].
  replace (e ?= -52) with Lt; [reflexivity|].
  symmetry. apply Z.compare_lt_iff. lia.
Qed.

(** Below a modulus of 2^52 the midpoint of a state computed in doubles is
    strictly between 0 and 1. *)
Lemma midpoint_in_open_unit (m v : Z) :
  0 < m <= 2 ^ 52 -> 0 <= v < m ->
  exists u, midpoint m v = Ok u /\ Float64.in_open_unit u = true.
Proof.
  intros [Hm0 Hm] [Hv0 Hv].
  change (2 ^ 52) with 4503599627370496 in Hm.
  destruct (add_half_normal v) as (N & d1 & Hadd & Hd1 & Hb1 & HN & HdN);
    [change (2 ^ 52) with 4503599627370496; lia|].
  destruct (of_Z_normal m) as (M & dm & HofM & Hdm & Hbm & HM & HdM);
    [change (2 ^ 53) with 9007199254740992; lia|].
  assert (HofV : Float64.of_int v = Ok (Float64.of_Z v)).
  { unfold Float64.of_int. destruct (Z.eq_dec v 0) as [->|Hnz]; [reflexivity|].
    destruct (of_Z_normal v) as (V & dv & -> & _);
      [change (2 ^ 53) with 9007199254740992; lia | reflexivity]. }
  unfold midpoint. rewrite HofV. cbn [Py.bind].
  unfold Float64.of_int. rewrite HofM. cbn [Py.bind].
  rewrite Hadd. unfold Float64.truediv, Float64.prec, Float64.emax, SFdiv.
  rewrite div_core_normal by (assumption || lia). cbn [xorb].
  (* the quotient of the significands *)
  assert (Hk : d1 <= dm + 1).
  { apply (pow2_digits_le (2 * v + 1)); [|lia]. split; [apply Hb1|].
    rewrite Z.pow_add_r by lia. change (2 ^ 1) with 2. lia. }
  pose proof (digits2_pos_bounds N) as HbN. rewrite HdN in HbN.
  pose proof (digits2_pos_bounds M) as HbM. rewrite HdM in HbM.
  change (53 - 1) with 52 in *.
  change (2 ^ 52) with 4503599627370496 in HbN, HbM.
  change (2 ^ 53) with 9007199254740992 in *.
  set (k := dm + 1 - d1).
  assert (Hkey : Zpos N * 9007199254740992
                 <= Zpos M * 9007199254740991 * 2 ^ k).
  { rewrite HN, HM.
    assert (Hp : 2 ^ (53 - dm) * 2 ^ k = 2 * 2 ^ (53 - d1)).
    { rewrite <- Z.pow_add_r by (unfold k; lia).
      rewrite <- (Z.pow_succ_r 2 (53 - d1)) by lia. f_equal. unfold k. lia. }
    assert (Heq : m * 2 ^ (53 - dm) * 9007199254740991 * 2 ^ k
                  = 2 * m * 9007199254740991 * 2 ^ (53 - d1)).
    { transitivity (m * 9007199254740991 * (2 ^ (53 - dm) * 2 ^ k));
        [ring | rewrite Hp; ring]. }
    rewrite Heq.
    replace ((2 * v + 1) * 2 ^ (53 - d1) * 9007199254740992)
      with ((2 * v + 1) * 9007199254740992 * 2 ^ (53 - d1)) by ring.
    apply Z.mul_le_mono_nonneg_r; [apply Z.pow_nonneg; lia | lia]. }
  pose proof (Z.div_mod (Zpos N * 9007199254740992) (Zpos M) ltac:(lia)) as Hdiv.
  pose proof (Z.mod_pos_bound (Zpos N * 9007199254740992) (Zpos M) ltac:(lia))
    as Hmod.
  set (q := Zpos N * 9007199254740992 / Zpos M) in *.
  set (r := (Zpos N * 9007199254740992) mod Zpos M) in *.
  assert (Hq : 4503599627370496 <= q < 18014398509481984) by nia.
  destruct q as [|qp|qp] eqn:Eq; try lia.
  replace (d1 - 54 - (dm - 53) - 53) with (-53 - k) by (unfold k; lia).
  assert (Hk0 : 0 <= k) by (unfold k; lia).
  assert (Hk53 : k <= 53) by (unfold k; lia).
  destruct (Z_lt_le_dec (Zpos qp) 9007199254740992) as [Hsmall|Hlarge].
  - assert (Hdq : Zpos (digits2_pos qp) = 53)
      by (apply digits2_pos_unique; change (2 ^ (53 - 1)) with 4503599627370496;
          change (2 ^ 53) with 9007199254740992; lia).
    destruct (round_53 qp (-53 - k) (new_location (Zpos M) r) Hdq)
      as (m' & e' & -> & Hrange & Hsame); [lia | lia |].
    eexists. split; [reflexivity|]. apply finite_below_one.
    destruct (Z.eq_dec k 0) as [Hz|Hnz]; [|lia].
    rewrite Hz in *. change (2 ^ 0) with 1 in Hkey.
    rewrite Hsame; [lia|].
    change (2 ^ 53) with 9007199254740992.
    destruct (Z_lt_le_dec (Zpos qp) 9007199254740991) as [|Hmax];
      [left; lia | right].
    assert (r = 0) as -> by nia. apply new_location_zero.
  - assert (Hdq : Zpos (digits2_pos qp) = 54)
      by (apply digits2_pos_unique; change (2 ^ (54 - 1)) with 9007199254740992;
          change (2 ^ 54) with 18014398509481984; lia).
    destruct (round_54 qp (-53 - k) (new_location (Zpos M) r) Hdq)
      as (m' & e' & -> & Hrange & Hsame); [lia | lia |].
    eexists. split; [reflexivity|]. apply finite_below_one.
    destruct (Z.eq_dec k 0) as [Hz|Hnz].
    + rewrite Hz in *. change (2 ^ 0) with 1 in Hkey. nia.
    + destruct (Z.eq_dec k 1) as [Hone|Hmore]; [|lia].
      rewrite Hone in *. change (2 ^ 1) with 2 in Hkey.
      rewrite Hsame; [lia|].
      change (2 ^ 54) with 18014398509481984. nia.
Qed.

(** ** Normalized congruential engine *)

Lemma traverse_app {A B : Type} (f : A -> result B) (l1 l2 : list A) :
  traverse f (l1 ++ l2)
  = match traverse f l1 with
    | Raise e => Raise e
    | Ok ys =>
        match traverse f l2 with
        | Raise e => Raise e
        | Ok zs => Ok (ys ++ zs)
        end
    end.
Proof.
  induction l1 as [|x l1 IH]; simpl.
  - destruct (traverse f l2); reflexivity.
  - destruct (f x) as [y|e]; [|reflexivity]. rewrite IH.
    destruct (traverse f l1) as [ys|e]; [|reflexivity].
    destruct (traverse f l2); reflexivity.
Qed.

Lemma traverse_map_ok {A B : Type} (f : A -> result B) (l : list A)
    (ys : list B) :
  traverse f l = Ok ys -> map f l = map Ok ys.
Proof.
  revert ys. induction l as [|x l IH]; intros ys H; simpl in H.
  - injection H as <-. reflexivity.
  - destruct (f x) as [y|e] eqn:Hx; [|discriminate].
    destruct (traverse f l) as [zs|e]; [|discriminate].
    injection H as <-. simpl. rewrite Hx, (IH zs eq_refl). reflexivity.
Qed.

Lemma traverse_forall {A B : Type} (f : A -> result B) (P : A -> Prop)
    (Q : B -> Prop) (l : list A) :
  (forall x, P x -> exists y, f x = Ok y /\ Q y) ->
  Forall P l -> exists ys, traverse f l = Ok ys /\ Forall Q ys.
Proof.
  intros Hf Hl. induction Hl as [|x l Hx Hl IH]; simpl.
  - exists []. split; [reflexivity | constructor].
  - destruct (Hf x Hx) as (y & -> & Hy). destruct IH as (ys & -> & Hys).
    exists (y :: ys). split; [reflexivity | constructor; assumption].
Qed.

Section UniformLoop.

Variables a c m x_zero upper_bound : Z.

Lemma lcg_loop_extends fuel :
  forall it current_x acc l,
    lcg_loop fuel a c m x_zero upper_bound it current_x acc = Some (Ok l) ->
    exists l', l = acc ++ l'.
Proof.
  induction fuel as [|fuel IH]; intros it current_x acc l H; simpl in H.
  - discriminate.
  - destruct (it <=? upper_bound).
    + destruct (Py.mod_ (a * current_x + c) m) as [next_x|e]; [|discriminate].
      destruct (next_x =? x_zero).
      * injection H as <-. exists [next_x]. reflexivity.
      * apply IH in H. destruct H as [l' ->]. exists (next_x :: l').
        rewrite <- app_assoc. reflexivity.
    + injection H as <-. exists []. rewrite app_nil_r. reflexivity.
Qed.

(** The normalized loop is the raw loop with [midpoint] applied to every
    value as it is appended; the first conversion that raises ends it. *)
Lemma uniform_loop_refines fuel :
  forall it current_x acc acc_u l,
    traverse (midpoint m) acc = Ok acc_u ->
    lcg_loop fuel a c m x_zero upper_bound it current_x acc = Some (Ok l) ->
    uniform_loop fuel a c m x_zero upper_bound it current_x acc_u
    = Some (traverse (midpoint m) l).
Proof.
  induction fuel as [|fuel IH]; intros it current_x acc acc_u l Hacc H;
    simpl in H; simpl.
  - discriminate.
  - destruct (it <=? upper_bound).
    + destruct (Py.mod_ (a * current_x + c) m) as [next_x|e]; [|discriminate].
      destruct (midpoint m next_x) as [u|e] eqn:Hu.
      * assert (Hacc' : traverse (midpoint m) (acc ++ [next_x])
                        = Ok (acc_u ++ [u])).
        { rewrite traverse_app, Hacc. simpl. rewrite Hu. reflexivity. }
        destruct (next_x =? x_zero).
        -- injection H as <-. rewrite Hacc'. reflexivity.
        -- apply (IH _ _ _ _ _ Hacc' H).
      * assert (Hl : exists l', l = (acc ++ [next_x]) ++ l').
        { destruct (next_x =? x_zero).
          - injection H as <-. exists []. rewrite app_nil_r. reflexivity.
          - apply lcg_loop_extends in H. exact H. }
        destruct Hl as [l' ->].
        rewrite !traverse_app, Hacc. simpl. rewrite Hu. reflexivity.
    + injection H as <-. rewrite Hacc. reflexivity.
Qed.

End UniformLoop.

(** C3 as stated fails on doubles: for the modulus 2^53 the state
    2^53 - 1 plus one half rounds to 2^53, and the normalized value is
    exactly 1.0, which is not strictly inside (0, 1). *)
Lemma uniform_reaches_one :
  random_mixed_congruential_generator 0 (2 ^ 53 - 1) (2 ^ 53) 0 0
  = Some (Ok [2 ^ 53 - 1])
  /\ uniform_random_from_mixed_congruential_generator
       0 (2 ^ 53 - 1) (2 ^ 53) 0 0
     = Some (Ok [Float64.one])
  /\ Float64.in_open_unit Float64.one = false.
Proof. vm_compute. repeat split. Qed.

(** C3, amended: for a modulus [m > 0] the normalized generator returns
    what [(raw + 0.5) / m], computed in doubles, gives elementwise on the
    list of the raw generator, in the same order (or the first
    [OverflowError] of these conversions); when moreover [m <= 2^52] every
    conversion succeeds and every element is strictly inside (0, 1). *)
Theorem uniform_is_midpoint_of_raw (a c m x_zero upper_bound : Z) :
  0 < m ->
  exists l,
    random_mixed_congruential_generator a c m x_zero upper_bound = Some (Ok l)
    /\ uniform_random_from_mixed_congruential_generator
         a c m x_zero upper_bound
       = Some (traverse (midpoint m) l)
    /\ (m <= 2 ^ 52 ->
        exists us,
          traverse (midpoint m) l = Ok us
          /\ map (midpoint m) l = map Ok us
          /\ Forall (fun u => Float64.in_open_unit u = true) us).
Proof.
  intros Hm.
  destruct (Z_lt_le_dec upper_bound 0) as [Hneg|Hub].
  - exists []. split; [apply lcg_negative_cap; exact Hneg|]. split.
    + unfold uniform_random_from_mixed_congruential_generator, lcg_fuel.
      simpl. destruct (0 <=? upper_bound) eqn:H;
        [apply Z.leb_le in H; lia | reflexivity].
    + intros _. exists []. repeat split; constructor.
  - destruct (lcg_range_and_recurrence a c m x_zero upper_bound Hm Hub)
      as (l & Hrun & Hrange).
    exists l. split; [exact Hrun|]. split.
    + apply (uniform_loop_refines a c m x_zero upper_bound
               (lcg_fuel upper_bound) 0 x_zero [] [] l eq_refl Hrun).
    + intros Hsmall.
      destruct (traverse_forall (midpoint m) (fun v => 0 <= v < m)
                  (fun u => Float64.in_open_unit u = true) l)
        as (us & Hus & Hin); [|exact Hrange|].
      * intros v Hv. apply midpoint_in_open_unit; [lia | exact Hv].
      * exists us. split; [exact Hus|]. split; [|exact Hin].
        apply traverse_map_ok. exact Hus.
Qed.

Lemma uniform_is_midpoint_of_raw_witness :
  exists l,
    random_mixed_congruential_generator 5 3 16 1 20 = Some (Ok l)
    /\ uniform_random_from_mixed_congruential_generator 5 3 16 1 20
       = Some (traverse (midpoint 16) l)
    /\ (16 <= 2 ^ 52 ->
        exists us,
          traverse (midpoint 16) l = Ok us
          /\ map (midpoint 16) l = map Ok us
          /\ Forall (fun u => Float64.in_open_unit u = true) us).
Proof. apply (uniform_is_midpoint_of_raw 5 3 16 1 20). lia. Defined.

(** * Further properties of the module *)

(** ** Congruential engine: caps, seeds and moduli *)

Lemma nth_removelast {A : Type} (P : A -> Prop) (l : list A) (d : A) :
  Forall P (removelast l) ->
  forall i, (S i < length l)%nat -> P (nth i l d).
Proof.
  intros Hall i Hi.
  assert (Hne : l <> []) by (intros ->; simpl in Hi; lia).
  rewrite (app_removelast_last d Hne) in Hi |- *.
  rewrite length_app in Hi. simpl in Hi.
  rewrite app_nth1 by lia.
  rewrite Forall_forall in Hall. apply Hall. apply nth_In. lia.
Qed.

Lemma last_as_nth {A : Type} (l : list A) (d : A) :
  l <> [] -> last l d = nth (length l - 1) l d.
Proof.
  intros Hne. rewrite (app_removelast_last d Hne) at 2 3.
  rewrite length_app. simpl length.
  rewrite app_nth2 by lia.
  replace (length (removelast l) + 1 - 1 - length (removelast l))%nat
    with O by lia.
  reflexivity.
Qed.

(** The run of the generator with everything the loop keeps. *)
Lemma lcg_run_suffix (a c m x_zero upper_bound : Z) :
  0 < m -> 0 <= upper_bound ->
  exists l,
    random_mixed_congruential_generator a c m x_zero upper_bound = Some (Ok l)
    /\ l <> []
    /\ lcg_suffix a c m x_zero upper_bound 0 x_zero l.
Proof.
  intros Hm Hub.
  destruct (lcg_loop_spec a c m x_zero upper_bound (lcg_fuel upper_bound) Hm
              0 x_zero []) as (l & Hrun & Hl).
  - lia.
  - unfold lcg_fuel. rewrite Z.sub_0_r. lia.
  - exists l. split; [exact Hrun|]. split; [|exact Hl].
    destruct Hl as [_ _ Hs _ _]. intros ->. simpl in Hs. destruct Hs; lia.
Qed.

(** X1: a cap below zero gives the empty list whatever the other
    arguments are, a zero modulus included: the loop body never runs. *)
Theorem lcg_negative_cap_empty (a c m x_zero upper_bound : Z) :
  upper_bound < 0 ->
  random_mixed_congruential_generator a c m x_zero upper_bound = Some (Ok [])
  /\ uniform_random_from_mixed_congruential_generator a c m x_zero upper_bound
     = Some (Ok []).
Proof.
  intros Hub.
  unfold random_mixed_congruential_generator,
    uniform_random_from_mixed_congruential_generator, lcg_fuel. simpl.
  destruct (0 <=? upper_bound) eqn:H; [apply Z.leb_le in H; lia|].
  split; reflexivity.
Qed.

Lemma lcg_negative_cap_empty_witness :
  random_mixed_congruential_generator 5 3 0 1 (-1) = Some (Ok [])
  /\ uniform_random_from_mixed_congruential_generator 5 3 0 1 (-1)
     = Some (Ok []).
Proof. apply (lcg_negative_cap_empty 5 3 0 1 (-1)). lia. Defined.

(** X2: raising the cap only extends the list: the list for a cap is the
    prefix, of its own length, of the list for any larger cap. *)
Theorem lcg_cap_prefix (a c m x_zero cap1 cap2 : Z) :
  0 < m -> 0 <= cap1 <= cap2 ->
  exists l1 l2,
    random_mixed_congruential_generator a c m x_zero cap1 = Some (Ok l1)
    /\ random_mixed_congruential_generator a c m x_zero cap2 = Some (Ok l2)
    /\ (length l1 <= length l2)%nat
    /\ l1 = firstn (length l1) l2.
Proof.
  intros Hm [H1 H2].
  destruct (lcg_run_suffix a c m x_zero cap1 Hm H1)
    as (l1 & Hrun1 & Hne1 & [_ Hlen1 _ Hfresh1 Hrec1]).
  destruct (lcg_run_suffix a c m x_zero cap2 Hm ltac:(lia))
    as (l2 & Hrun2 & Hne2 & [_ _ Hstop2 _ Hrec2]).
  exists l1, l2. split; [exact Hrun1|]. split; [exact Hrun2|].
  assert (Hle : (length l1 <= length l2)%nat).
  { destruct (Nat.le_gt_cases (length l1) (length l2)) as [|Hgt];
      [assumption|exfalso].
    destruct Hstop2 as [Hcap|Hlast]; [lia|].
    rewrite (last_as_nth l2 _ Hne2) in Hlast.
    assert (Hpos : (0 < length l2)%nat)
      by (destruct l2; [congruence | simpl; lia]).
    rewrite (nth_indep l2 (x_zero + 1) 0) in Hlast by lia.
    rewrite Hrec2 in Hlast by lia.
    apply (nth_removelast (fun v => v <> x_zero) l1 0 Hfresh1
             (length l2 - 1)%nat); [lia|].
    rewrite Hrec1 by lia. exact Hlast. }
  split; [exact Hle|].
  apply (nth_ext _ _ 0 0).
  - rewrite length_firstn. lia.
  - intros i Hi. rewrite nth_firstn.
    destruct (i <? length l1)%nat eqn:Hlt;
      [|apply Nat.ltb_ge in Hlt; lia].
    rewrite Hrec1, Hrec2 by lia. reflexivity.
Qed.

Lemma lcg_cap_prefix_witness :
  exists l1 l2,
    random_mixed_congruential_generator 5 3 16 1 3 = Some (Ok l1)
    /\ random_mixed_congruential_generator 5 3 16 1 20 = Some (Ok l2)
    /\ (length l1 <= length l2)%nat
    /\ l1 = firstn (length l1) l2.
Proof. apply (lcg_cap_prefix 5 3 16 1 3 20); lia. Defined.

(** X3: a seed outside [0, m) is never produced, so the loop stops at the
    cap only: the list has exactly [upper_bound + 1] elements. *)
Theorem lcg_seed_out_of_range (a c m x_zero upper_bound : Z) :
  0 < m -> 0 <= upper_bound -> ~ (0 <= x_zero < m) ->
  exists l,
    random_mixed_congruential_generator a c m x_zero upper_bound = Some (Ok l)
    /\ Z.of_nat (length l) = upper_bound + 1
    /\ Forall (fun v => v <> x_zero) l.
Proof.
  intros Hm Hub Hseed.
  destruct (lcg_run_suffix a c m x_zero upper_bound Hm Hub)
    as (l & Hrun & Hne & [Hrange _ Hstop _ _]).
  exists l. split; [exact Hrun|].
  assert (Hall : Forall (fun v => v <> x_zero) l).
  { eapply Forall_impl; [|exact Hrange]. intros v Hv. cbv beta in Hv.
    intros ->. contradiction. }
  split; [|exact Hall].
  destruct Hstop as [Hcap|Hlast]; [lia|exfalso].
  rewrite Forall_forall in Hall.
  apply (Hall (last l (x_zero + 1))); [|exact Hlast].
  rewrite (app_removelast_last (x_zero + 1) Hne) at 2.
  apply in_or_app. right. left. reflexivity.
Qed.

Lemma lcg_seed_out_of_range_witness :
  exists l,
    random_mixed_congruential_generator 5 3 16 16 20 = Some (Ok l)
    /\ Z.of_nat (length l) = 20 + 1
    /\ Forall (fun v => v <> 16) l.
Proof. apply (lcg_seed_out_of_range 5 3 16 16 20); lia. Defined.

(** X4: when the list is shorter than the cap allows, its length is the
    period of the seed: the recurrence is back at the seed after exactly
    that many steps and not earlier. *)
Theorem lcg_early_stop_is_period (a c m x_zero upper_bound : Z) :
  0 < m -> 0 <= upper_bound ->
  exists l,
    random_mixed_congruential_generator a c m x_zero upper_bound = Some (Ok l)
    /\ (Z.of_nat (length l) < upper_bound + 1 ->
        lcg_iterate a c m x_zero (length l) = x_zero
        /\ forall j, (0 < j < length l)%nat ->
             lcg_iterate a c m x_zero j <> x_zero).
Proof.
  intros Hm Hub.
  destruct (lcg_run_suffix a c m x_zero upper_bound Hm Hub)
    as (l & Hrun & Hne & [_ _ Hstop Hfresh Hrec]).
  exists l. split; [exact Hrun|]. intros Hshort.
  assert (Hpos : (0 < length l)%nat)
    by (destruct l; [congruence | simpl; lia]).
  split.
  - destruct Hstop as [Hcap|Hlast]; [lia|].
    rewrite (last_as_nth l _ Hne) in Hlast.
    rewrite (nth_indep l (x_zero + 1) 0) in Hlast by lia.
    rewrite Hrec in Hlast by lia.
    replace (S (length l - 1)) with (length l) in Hlast by lia. exact Hlast.
  - intros j [Hj0 Hj].
    replace j with (S (j - 1)) by lia. rewrite <- Hrec by lia.
    apply (nth_removelast (fun v => v <> x_zero) l 0 Hfresh). lia.
Qed.

Lemma lcg_early_stop_is_period_witness :
  exists l,
    random_mixed_congruential_generator 5 3 16 1 20 = Some (Ok l)
    /\ (Z.of_nat (length l) < 20 + 1 ->
        lcg_iterate 5 3 16 1 (length l) = 1
        /\ forall j, (0 < j < length l)%nat -> lcg_iterate 5 3 16 1 j <> 1).
Proof. apply (lcg_early_stop_is_period 5 3 16 1 20); lia. Defined.

Section LcgNonZeroModulus.

Variables a c m x_zero upper_bound : Z.

(** For any modulus but zero the loop returns, having appended remainders
    of divisions by [m]. *)
Lemma lcg_loop_nonzero fuel :
  m <> 0 ->
  forall it current_x acc,
    (Z.to_nat (upper_bound + 1 - it) < fuel)%nat ->
    exists l,
      lcg_loop fuel a c m x_zero upper_bound it current_x acc
        = Some (Ok (acc ++ l))
      /\ Forall (fun v => exists x, v = x mod m) l
      /\ Z.of_nat (length l) <= Z.max 0 (upper_bound + 1 - it)
      /\ (it <= upper_bound -> l <> []).
Proof.
  intros Hm. induction fuel as [|fuel IH]; intros it current_x acc Hfuel.
  - lia.
  - simpl. destruct (it <=? upper_bound) eqn:Hle.
    + apply Z.leb_le in Hle. unfold Py.mod_.
      destruct (m =? 0) eqn:Hm0; [apply Z.eqb_eq in Hm0; contradiction|].
      destruct ((a * current_x + c) mod m =? x_zero) eqn:Hx.
      * exists [(a * current_x + c) mod m]. split; [reflexivity|].
        split; [constructor; [eexists; reflexivity | constructor]|].
        split; [simpl; lia | discriminate].
      * destruct (IH (it + 1) ((a * current_x + c) mod m)
                    (acc ++ [(a * current_x + c) mod m]))
          as (l & Hrun & Hall & Hlen & _); [lia|].
        exists ((a * current_x + c) mod m :: l). split.
        -- rewrite Hrun, <- app_assoc. reflexivity.
        -- split; [constructor; [eexists; reflexivity | exact Hall]|].
           split; [simpl length; lia | discriminate].
    + apply Z.leb_gt in Hle. exists []. split.
      * rewrite app_nil_r. reflexivity.
      * split; [constructor|]. split; [simpl; lia | lia].
Qed.

End LcgNonZeroModulus.

(** X5: a negative modulus is not refused: the generator returns a list,
    of 1 to [upper_bound + 1] elements, whose values all lie in (m, 0], as
    the floor modulo gives them. *)
Theorem lcg_negative_modulus (a c m x_zero upper_bound : Z) :
  m < 0 -> 0 <= upper_bound ->
  exists l,
    random_mixed_congruential_generator a c m x_zero upper_bound = Some (Ok l)
    /\ Forall (fun v => m < v <= 0) l
    /\ 1 <= Z.of_nat (length l) <= upper_bound + 1.
Proof.
  intros Hm Hub.
  destruct (lcg_loop_nonzero a c m x_zero upper_bound (lcg_fuel upper_bound)
              ltac:(lia) 0 x_zero [])
    as (l & Hrun & Hall & Hlen & Hne).
  - unfold lcg_fuel. rewrite Z.sub_0_r. lia.
  - exists l. split; [exact Hrun|]. split.
    + eapply Forall_impl; [|exact Hall]. intros v [x ->].
      apply Z.mod_neg_bound. exact Hm.
    + specialize (Hne Hub). destruct l; [congruence|]. simpl length in *. lia.
Qed.

Lemma lcg_negative_modulus_witness :
  exists l,
    random_mixed_congruential_generator 5 3 (-16) 1 20 = Some (Ok l)
    /\ Forall (fun v => -16 < v <= 0) l
    /\ 1 <= Z.of_nat (length l) <= 20 + 1.
Proof. apply (lcg_negative_modulus 5 3 (-16) 1 20); lia. Defined.

(** X6: the normalized generator, given the modulus 0 and a cap of at
    least 0, raises [ZeroDivisionError] at the first [%], before any
    conversion to a float. *)
Theorem uniform_zero_modulus (a c x_zero upper_bound : Z) :
  0 <= upper_bound ->
  uniform_random_from_mixed_congruential_generator a c 0 x_zero upper_bound
  = Some (Raise ZeroDivisionError).
Proof.
  intros Hub.
  unfold uniform_random_from_mixed_congruential_generator, lcg_fuel. simpl.
  destruct (0 <=? upper_bound) eqn:H; [reflexivity | apply Z.leb_gt in H; lia].
Qed.

Lemma uniform_zero_modulus_witness :
  uniform_random_from_mixed_congruential_generator 5 3 0 1 20
  = Some (Raise ZeroDivisionError).
Proof. apply (uniform_zero_modulus 5 3 1 20). lia. Defined.

(** ** Doubles: integers too large to convert *)

Lemma shr_1_m (mrs : shr_record) :
  0 <= shr_m mrs -> shr_m (shr_1 mrs) = shr_m mrs / 2.
Proof.
  destruct mrs as [mm r s]. simpl. intros Hm.
  destruct mm as [|[p|p|]|p]; try lia;
    rewrite <- Z.div2_div; reflexivity.
Qed.

Lemma shr_iter_m (n : nat) :
  forall mrs,
    0 <= shr_m mrs ->
    shr_m (Nat.iter n shr_1 mrs) = shr_m mrs / 2 ^ Z.of_nat n.
Proof.
  induction n as [|n IH]; intros mrs Hm.
  - simpl. rewrite Z.div_1_r. reflexivity.
  - rewrite Nat.iter_succ_r, IH, shr_1_m by
      (try rewrite shr_1_m by assumption; try apply Z.div_pos; lia).
    rewrite Nat2Z.inj_succ, Z.pow_succ_r, Z.div_div by lia. reflexivity.
Qed.

Lemma round_finish_overflow (q : positive) (e : Z) :
  2 ^ 52 <= Zpos q <= 2 ^ 53 -> 971 < e ->
  round_finish (Zpos q) e = S754_infinity false.
Proof.
  intros [Hlo Hhi] He. unfold round_finish.
  destruct (Z.eq_dec (Zpos q) (2 ^ 53)) as [Heq|Hne].
  - change (2 ^ 53) with (Zpos 9007199254740992) in Heq. injection Heq as ->.
    unfold shr_fexp, fexp, emin. simpl Zdigits2.
    replace (Z.max (54 + e - 53) (3 - 1024 - 53) - e) with 1 by lia.
    cbn [shr shr_record_of_loc iter_pos shr_1 shr_m].
    replace (e + 1 <=? 1024 - 53) with false
      by (symmetry; apply Z.leb_gt; lia).
    reflexivity.
  - assert (Hd : Zpos (digits2_pos q) = 53)
      by (apply digits2_pos_unique; change (53 - 1) with 52; lia).
    rewrite shr_fexp_canonical by (assumption || lia).
    cbn [shr_record_of_loc shr_m].
    replace (e <=? 1024 - 53) with false by (symmetry; apply Z.leb_gt; lia).
    reflexivity.
Qed.

(** An integer of 2^1024 or more has no double: the conversion overflows. *)
Lemma of_int_overflow (z : Z) :
  2 ^ 1024 <= z -> Float64.of_int z = Raise OverflowError.
Proof.
  intros Hz.
  assert (Hbig : 0 < 2 ^ 1024) by (apply Z.pow_pos_nonneg; lia).
  destruct z as [|p|p]; try lia.
  pose proof (digits2_pos_bounds p) as Hb.
  set (d := Zpos (digits2_pos p)) in *.
  assert (Hd : 1025 <= d).
  { destruct (Z_lt_le_dec d 1025) as [Hlt|]; [exfalso|assumption].
    assert (2 ^ d <= 2 ^ 1024) by (apply Z.pow_le_mono_r; lia). lia. }
  unfold Float64.of_int, Float64.of_Z, binary_normalize, binary_round,
    Float64.prec, Float64.emax, fexp, emin.
  fold d. replace (Z.max (d + 0 - 53) (3 - 1024 - 53)) with (d - 53) by lia.
  rewrite shl_align_id by lia.
  rewrite binary_round_aux_finish. unfold shr_fexp, fexp, emin.
  simpl Zdigits2. fold d.
  replace (Z.max (d + 0 - 53) (3 - 1024 - 53) - 0) with (d - 53) by lia.
  destruct (d - 53) as [|k|k] eqn:Hk; try lia.
  cbn [shr shr_record_of_loc]. rewrite iter_pos_nat.
  set (mrs := Nat.iter (Pos.to_nat k) shr_1
                {| shr_m := Zpos p; shr_r := false; shr_s := false |}).
  assert (Hm : shr_m mrs = Zpos p / 2 ^ Zpos k).
  { unfold mrs. rewrite shr_iter_m by (simpl; lia).
    rewrite positive_nat_Z. reflexivity. }
  assert (Hrange : 2 ^ 52 <= shr_m mrs < 2 ^ 53).
  { rewrite Hm.
    assert (Hpk : 0 < 2 ^ Zpos k) by (apply Z.pow_pos_nonneg; lia).
    assert (H52 : 2 ^ (d - 1) = 2 ^ Zpos k * 2 ^ 52)
      by (rewrite <- Z.pow_add_r by lia; f_equal; lia).
    assert (H53 : 2 ^ d = 2 ^ Zpos k * 2 ^ 53)
      by (rewrite <- Z.pow_add_r by lia; f_equal; lia).
    rewrite H52, H53 in Hb. split.
    - apply Z.div_le_lower_bound; [exact Hpk | apply Hb].
    - apply Z.div_lt_upper_bound; [exact Hpk | apply Hb]. }
  assert (Hround : exists q,
             round_nearest_even (shr_m mrs) (loc_of_shr_record mrs) = Zpos q
             /\ 2 ^ 52 <= Zpos q <= 2 ^ 53).
  { change (2 ^ 52) with 4503599627370496 in *.
    change (2 ^ 53) with 9007199254740992 in *.
    destruct (round_nearest_even_step (shr_m mrs) (loc_of_shr_record mrs))
      as [->|[-> _]].
    - destruct (shr_m mrs) as [|q|q]; try lia. exists q. split; [reflexivity|lia].
    - destruct (shr_m mrs) as [|q|q]; try lia. exists (q + 1)%positive.
      split; [reflexivity|lia]. }
  destruct Hround as (q & -> & Hq).
  rewrite round_finish_overflow by (assumption || lia). reflexivity.
Qed.

(** X7: for a modulus of 2^1024 or more the normalized generator raises
    [OverflowError] on its first value, while the raw generator returns its
    list. *)
Theorem uniform_overflows_on_huge_modulus (a c m x_zero upper_bound : Z) :
  2 ^ 1024 <= m -> 0 <= upper_bound ->
  uniform_random_from_mixed_congruential_generator a c m x_zero upper_bound
  = Some (Raise OverflowError)
  /\ exists l,
       random_mixed_congruential_generator a c m x_zero upper_bound
       = Some (Ok l)
       /\ l <> [].
Proof.
  intros Hm Hub.
  assert (Hbig : 0 < 2 ^ 1024) by (apply Z.pow_pos_nonneg; lia).
  split.
  - unfold uniform_random_from_mixed_congruential_generator, lcg_fuel.
    simpl uniform_loop.
    destruct (0 <=? upper_bound) eqn:H; [|apply Z.leb_gt in H; lia].
    unfold Py.mod_. destruct (m =? 0) eqn:Hm0; [apply Z.eqb_eq in Hm0; lia|].
    unfold midpoint. rewrite (of_int_overflow m Hm).
    destruct (Float64.of_int _) as [x|e] eqn:Hx; [reflexivity|].
    unfold Float64.of_int in Hx.
    destruct (Float64.of_Z _); try discriminate.
    injection Hx as <-. reflexivity.
  - destruct (lcg_run_suffix a c m x_zero upper_bound ltac:(lia) Hub)
      as (l & Hrun & Hne & _).
    exists l. split; assumption.
Qed.

Lemma uniform_overflows_on_huge_modulus_witness :
  uniform_random_from_mixed_congruential_generator 5 3 (2 ^ 1024) 1 20
  = Some (Raise OverflowError)
  /\ exists l,
       random_mixed_congruential_generator 5 3 (2 ^ 1024) 1 20 = Some (Ok l)
       /\ l <> [].
Proof.
  apply (uniform_overflows_on_huge_modulus 5 3 (2 ^ 1024) 1 20);
    [apply Z.leb_le; vm_compute; reflexivity | lia].
Defined.

(** ** Acceptance-rejection sampler, bound supplied: every outcome *)

Section AcceptanceRejectionOutcomes.

Context {N : numeric}.
Variables (m a b : N) (function : N -> result N) (draws : rng N).

(** A loop that returns has run some trials, all rejected but possibly the
    last, and left the locals of the last one. *)
Lemma ar_loop_returns trials :
  forall pos locals locals' pos',
    ar_loop m a b function draws trials pos locals = Ok (locals', pos') ->
    (trials = O /\ locals' = locals /\ pos' = pos)
    \/ exists k image,
         (k < trials)%nat
         /\ pos' = (pos + 2 * S k)%nat
         /\ locals'
            = ar_assigned (draw_u1 draws pos k) (draw_u2 draws pos k) image
         /\ (forall j, (j < k)%nat ->
               exists w, rejects m a b function draws pos j w)
         /\ (accepts m a b function draws pos k image
             \/ (rejects m a b function draws pos k image
                 /\ S k = trials)).
Proof.
  induction trials as [|trials IH]; intros pos locals locals' pos' H.
  - simpl in H. injection H as <- <-. left. auto.
  - right. rewrite ar_loop_step in H.
    destruct (ar_trial m a b function (draw_u1 draws pos 0)
                (draw_u2 draws pos 0)) as [[image accepted]|e] eqn:Htrial;
      [|discriminate].
    cbv zeta in H. destruct accepted.
    + injection H as <- <-. exists O, image.
      split; [lia|]. split; [lia|]. split; [reflexivity|].
      split; [intros j Hj; lia | left; exact Htrial].
    + apply IH in H. destruct H as [(Ht & -> & ->)|H].
      * exists O, image. split; [lia|]. split; [lia|]. split; [reflexivity|].
        split; [intros j Hj; lia|]. right. split; [exact Htrial | lia].
      * destruct H as (k & v & Hk & -> & -> & Hrej & Hlast).
        exists (S k), v. split; [lia|]. split; [lia|].
        split; [rewrite draw_u1_shift, draw_u2_shift; reflexivity|].
        split.
        -- intros [|j] Hj; [exists image; exact Htrial|].
           destruct (Hrej j) as [w Hw]; [lia|]. exists w.
           unfold rejects in *. rewrite draw_u1_shift, draw_u2_shift.
           exact Hw.
        -- unfold accepts, rejects in *.
           rewrite draw_u1_shift, draw_u2_shift.
           destruct Hlast as [Hacc|[Hrej' Hend]];
             [left; exact Hacc | right; split; [exact Hrej' | lia]].
Qed.

(** An exception in trial [k], after [k] rejections, ends the loop. *)
Lemma ar_loop_raises k trials pos locals e :
  (forall j, (j < k)%nat -> exists w, rejects m a b function draws pos j w) ->
  ar_trial m a b function (draw_u1 draws pos k) (draw_u2 draws pos k)
  = Raise e ->
  ar_loop m a b function draws (k + S trials) pos locals = Raise e.
Proof.
  intros Hrej Hraise.
  destruct (ar_loop_skip m a b function draws k (S trials) pos locals Hrej)
    as (locals' & -> & _).
  rewrite ar_loop_step. unfold draw_u1, draw_u2 in *.
  replace (pos + 2 * k + 2 * 0)%nat with (pos + 2 * k)%nat by lia.
  rewrite Hraise. reflexivity.
Qed.

End AcceptanceRejectionOutcomes.

(** X8: when all the [upper_limit >= 1] trials reject, the variant with
    the supplied bound returns the density of the last, rejected, trial
    like an accepted one, having read two draws per trial. *)
Theorem ar_exhaustion_returns_last_image {N : numeric} (m a b : N)
    (function : N -> result N) (upper_limit : Z) (draws : rng N)
    (pos : nat) (image : N) :
  1 <= upper_limit ->
  (forall j, (j < Z.to_nat upper_limit)%nat ->
     exists w, rejects m a b function draws pos j w) ->
  rejects m a b function draws pos (Z.to_nat upper_limit - 1) image ->
  generate_acceptance_rejection m a b function upper_limit draws pos
  = Ok (image, (pos + 2 * Z.to_nat upper_limit)%nat).
Proof.
  intros Hone Hrej Hlast.
  rewrite (ar_exhausted_returns_stale m a b function upper_limit draws pos
             (Z.to_nat upper_limit - 1) image).
  - f_equal. f_equal. lia.
  - lia.
  - intros j Hj. apply Hrej. lia.
  - exact Hlast.
Qed.

Lemma ar_exhaustion_returns_last_image_witness :
  generate_acceptance_rejection (N := double) docstring_bound
    (Float64.of_Z 10) (Float64.of_Z 20) docstring_density 1 cycling_draws 0
  = Ok (Float64.ratio 1 20, (0 + 2 * Z.to_nat 1)%nat).
Proof.
  apply (ar_exhaustion_returns_last_image (N := double) docstring_bound
           (Float64.of_Z 10) (Float64.of_Z 20) docstring_density 1
           cycling_draws 0 (Float64.ratio 1 20)).
  - lia.
  - intros j Hj. assert (j = 0%nat) as -> by (simpl in Hj; lia).
    exists (Float64.ratio 1 20). vm_compute. reflexivity.
  - vm_compute. reflexivity.
Defined.

(** X9: whatever the variant with the supplied bound returns is the
    density at the candidate of the last trial it ran, trial [k] with
    [k < upper_limit]: the trials before it rejected, it read exactly
    [2 * (k + 1)] draws, and trial [k] either accepted or was the last
    one allowed. *)
Theorem ar_result_is_last_trial {N : numeric} (m a b : N)
    (function : N -> result N) (upper_limit : Z) (draws : rng N)
    (pos : nat) (image : N) (pos' : nat) :
  generate_acceptance_rejection m a b function upper_limit draws pos
  = Ok (image, pos') ->
  exists k,
    (k < Z.to_nat upper_limit)%nat
    /\ pos' = (pos + 2 * S k)%nat
    /\ function (add a (mul (sub b a) (draw_u1 draws pos k))) = Ok image
    /\ (forall j, (j < k)%nat ->
          exists w, rejects m a b function draws pos j w)
    /\ (accepts m a b function draws pos k image
        \/ (rejects m a b function draws pos k image
            /\ S k = Z.to_nat upper_limit)).
Proof.
  unfold generate_acceptance_rejection. intros H.
  destruct (ar_loop m a b function draws (Z.to_nat upper_limit) pos
              (ar_unassigned N)) as [[locals p]|e] eqn:Hloop; [|discriminate].
  cbn [Py.bind] in H.
  destruct (ar_loop_returns m a b function draws _ _ _ _ _ Hloop)
    as [(_ & -> & _)|(k & v & Hk & -> & -> & Hrej & Hlast)].
  - discriminate.
  - simpl in H. injection H as <- <-.
    exists k. repeat split; try assumption.
    assert (Htrial : exists verdict,
               ar_trial m a b function (draw_u1 draws pos k)
                 (draw_u2 draws pos k) = Ok (v, verdict)).
    { destruct Hlast as [Hacc|[Hr _]]; eexists; [exact Hacc | exact Hr]. }
    destruct Htrial as [verdict Htrial].
    unfold ar_trial, ar_candidate in Htrial.
    destruct (function _) as [w|e]; simpl in Htrial; [|discriminate].
    destruct (div w m) as [q|e]; simpl in Htrial; [|discriminate].
    congruence.
Qed.

Lemma ar_result_is_last_trial_witness :
  exists k,
    (k < Z.to_nat 100)%nat
    /\ 4%nat = (0 + 2 * S k)%nat
    /\ docstring_density
         (add (Float64.of_Z 10 : double)
            (mul (sub (Float64.of_Z 20 : double) (Float64.of_Z 10))
               (draw_u1 cycling_draws 0 k)))
       = Ok (Float64.ratio 3 20)
    /\ (forall j, (j < k)%nat ->
          exists w, rejects (N := double) docstring_bound (Float64.of_Z 10)
                      (Float64.of_Z 20) docstring_density cycling_draws 0 j w)
    /\ (accepts (N := double) docstring_bound (Float64.of_Z 10)
          (Float64.of_Z 20) docstring_density cycling_draws 0 k
          (Float64.ratio 3 20)
        \/ (rejects (N := double) docstring_bound (Float64.of_Z 10)
              (Float64.of_Z 20) docstring_density cycling_draws 0 k
              (Float64.ratio 3 20)
            /\ S k = Z.to_nat 100)).
Proof.
  apply (ar_result_is_last_trial (N := double) docstring_bound
           (Float64.of_Z 10) (Float64.of_Z 20) docstring_density 100
           cycling_draws 0 (Float64.ratio 3 20) 4).
  vm_compute. reflexivity.
Defined.

(** X10: an exception raised in a trial, by the evaluation of the density
    or by the division by [m], leaves the function as it is, the values of
    the rejected trials before it being lost. *)
Theorem ar_exception_propagates {N : numeric} (m a b : N)
    (function : N -> result N) (upper_limit : Z) (draws : rng N)
    (pos k : nat) (e : exn) :
  (k < Z.to_nat upper_limit)%nat ->
  (forall j, (j < k)%nat -> exists w, rejects m a b function draws pos j w) ->
  ar_trial m a b function (draw_u1 draws pos k) (draw_u2 draws pos k)
  = Raise e ->
  generate_acceptance_rejection m a b function upper_limit draws pos
  = Raise e.
Proof.
  intros Hk Hrej Hraise. unfold generate_acceptance_rejection.
  replace (Z.to_nat upper_limit)
    with (k + S (Z.to_nat upper_limit - S k))%nat by lia.
  rewrite (ar_loop_raises m a b function draws k
             (Z.to_nat upper_limit - S k) pos (ar_unassigned N) e Hrej Hraise).
  reflexivity.
Qed.

Lemma ar_exception_propagates_witness :
  generate_acceptance_rejection (N := double) Float64.zero
    (Float64.of_Z 10) (Float64.of_Z 20) docstring_density 100 cycling_draws 0
  = Raise ZeroDivisionError.
Proof.
  apply (ar_exception_propagates (N := double) Float64.zero
           (Float64.of_Z 10) (Float64.of_Z 20) docstring_density 100
           cycling_draws 0 0 ZeroDivisionError).
  - vm_compute. lia.
  - intros j Hj. lia.
  - vm_compute. reflexivity.
Defined.

(** ** Acceptance-rejection sampler, bound computed: every outcome *)

Section ComputedBoundOutcomes.

Context {N : numeric}.
Variables (m a b : N) (function : N -> result N) (draws : rng N).

Lemma ars_loop_returns trials :
  forall pos r pos',
    ars_loop m a b function draws trials pos = Ok (r, pos') ->
    match r with
    | None =>
        pos' = (pos + 2 * trials)%nat
        /\ forall j, (j < trials)%nat ->
             exists w, ars_trial m a b function draws pos j = Ok (w, false)
    | Some image =>
        exists k,
          (k < trials)%nat
          /\ pos' = (pos + 2 * S k)%nat
          /\ ars_trial m a b function draws pos k = Ok (image, true)
          /\ forall j, (j < k)%nat ->
               exists w, ars_trial m a b function draws pos j = Ok (w, false)
    end.
Proof.
  induction trials as [|trials IH]; intros pos r pos' H.
  - simpl in H. injection H as <- <-. split; [lia | intros j Hj; lia].
  - rewrite ars_loop_step in H.
    destruct (ars_trial m a b function draws pos 0)
      as [[image accepted]|e] eqn:Htrial; [|discriminate].
    destruct accepted.
    + injection H as <- <-. exists O. split; [lia|]. split; [lia|].
      split; [exact Htrial | intros j Hj; lia].
    + apply IH in H. destruct r as [v|].
      * destruct H as (k & Hk & -> & Hacc & Hrej).
        exists (S k). split; [lia|]. split; [lia|].
        split; [rewrite ars_trial_shift; exact Hacc|].
        intros [|j] Hj; [exists image; exact Htrial|].
        destruct (Hrej j) as [w Hw]; [lia|]. exists w.
        rewrite ars_trial_shift. exact Hw.
      * destruct H as [-> Hrej]. split; [lia|].
        intros [|j] Hj; [exists image; exact Htrial|].
        destruct (Hrej j) as [w Hw]; [lia|]. exists w.
        rewrite ars_trial_shift. exact Hw.
Qed.

End ComputedBoundOutcomes.

(** The bound of the density [x] on [0, 0.5] is 0.5. *)
Lemma identity_grid_bound :
  grid_maximum (N := double) (Float64.of_Z 0) (Float64.ratio 1 2)
    identity_density
  = Ok (Float64.ratio 1 2).
Proof. vm_compute. reflexivity. Qed.

(** X11: the variant with the computed bound, when every allowed trial
    rejects, returns [None] after two draws per trial and raises nothing;
    with [upper_limit <= 0] it returns [None] without drawing. *)
Theorem ars_exhaustion_is_none {N : numeric} (a b : N)
    (function : N -> result N) (upper_limit : Z) (draws : rng N)
    (pos : nat) (m : N) :
  grid_maximum a b function = Ok m ->
  (forall j, (j < Z.to_nat upper_limit)%nat ->
     exists w, ars_trial m a b function draws pos j = Ok (w, false)) ->
  generate_acceptance_rejection_with_symp a b function upper_limit draws pos
  = Ok (None, (pos + 2 * Z.to_nat upper_limit)%nat)
  /\ (upper_limit <= 0 ->
      generate_acceptance_rejection_with_symp a b function upper_limit
        draws pos = Ok (None, pos)).
Proof.
  intros Hm Hrej.
  pose proof (ars_exhaustion_returns_none a b function upper_limit draws pos
                m Hm Hrej) as Hnone.
  split; [exact Hnone|]. intros Hle. rewrite Hnone.
  replace (Z.to_nat upper_limit) with O by lia. f_equal. f_equal. lia.
Qed.

Lemma ars_exhaustion_is_none_witness :
  generate_acceptance_rejection_with_symp (N := double)
    (Float64.of_Z 0) (Float64.ratio 1 2) identity_density 1 cycling_draws 0
  = Ok (None, (0 + 2 * Z.to_nat 1)%nat).
Proof.
  refine (proj1 (ars_exhaustion_is_none (N := double)
                   (Float64.of_Z 0) (Float64.ratio 1 2) identity_density 1
                   cycling_draws 0 (Float64.ratio 1 2) _ _)).
  - exact identity_grid_bound.
  - intros j Hj. assert (j = 0%nat) as -> by (simpl in Hj; lia).
    exists (Float64.ratio 1 16). vm_compute. reflexivity.
Defined.

(** X12: the variant with the computed bound returns a value only from a
    trial that accepted it, the first to accept; and it returns [None]
    only after every allowed trial has rejected.  It never returns the
    density of a rejected trial. *)
Theorem ars_result_is_accepted {N : numeric} (a b : N)
    (function : N -> result N) (upper_limit : Z) (draws : rng N)
    (pos : nat) (m : N) (r : option N) (pos' : nat) :
  grid_maximum a b function = Ok m ->
  generate_acceptance_rejection_with_symp a b function upper_limit draws pos
  = Ok (r, pos') ->
  match r with
  | None =>
      pos' = (pos + 2 * Z.to_nat upper_limit)%nat
      /\ forall j, (j < Z.to_nat upper_limit)%nat ->
           exists w, ars_trial m a b function draws pos j = Ok (w, false)
  | Some image =>
      exists k,
        (k < Z.to_nat upper_limit)%nat
        /\ pos' = (pos + 2 * S k)%nat
        /\ ars_trial m a b function draws pos k = Ok (image, true)
        /\ forall j, (j < k)%nat ->
             exists w, ars_trial m a b function draws pos j = Ok (w, false)
  end.
Proof.
  intros Hm H. unfold generate_acceptance_rejection_with_symp in H.
  rewrite Hm in H. cbn [Py.bind] in H.
  apply (ars_loop_returns m a b function draws _ _ _ _ H).
Qed.

Lemma ars_result_is_accepted_witness :
  exists k,
    (k < Z.to_nat 1)%nat
    /\ 2%nat = (0 + 2 * S k)%nat
    /\ ars_trial (N := double) (Float64.ratio 1 2) (Float64.of_Z 1)
         (Float64.of_Z 3) flat_density cycling_draws 0 k
       = Ok (Float64.ratio 1 2, true)
    /\ forall j, (j < k)%nat ->
         exists w, ars_trial (N := double) (Float64.ratio 1 2)
                     (Float64.of_Z 1) (Float64.of_Z 3) flat_density
                     cycling_draws 0 j = Ok (w, false).
Proof.
  apply (ars_result_is_accepted (N := double) (Float64.of_Z 1)
           (Float64.of_Z 3) flat_density 1 cycling_draws 0
           (Float64.ratio 1 2) (Some (Float64.ratio 1 2)) 2).
  - vm_compute. reflexivity.
  - vm_compute. reflexivity.
Defined.

(** ** The computed bound dominates the grid *)

Lemma SFcompare_refl (x : spec_float) :
  x <> S754_nan -> SFcompare x x = Some Eq.
Proof.
  destruct x as [s|s| |s m e]; simpl; intros H; try congruence.
  - destruct s; reflexivity.
  - rewrite Z.compare_refl.
    change (PosDef.Pos.compare_cont Eq m m) with (Pos.compare m m).
    rewrite Pos.compare_refl. destruct s; reflexivity.
Qed.

Lemma SFleb_trans (x y z : spec_float) :
  SFleb x y = true -> SFleb y z = true -> SFleb x z = true.
Proof.
  unfold SFleb.
  destruct x as [sx|sx| |sx mx ex], y as [sy|sy| |sy my ey],
    z as [sz|sz| |sz mz ez]; simpl; try discriminate;
    try (destruct sx; discriminate || reflexivity);
    try (destruct sy; discriminate || reflexivity);
    try (destruct sz; discriminate || reflexivity);
    try (destruct sx, sy; discriminate || reflexivity);
    try (destruct sx, sz; discriminate || reflexivity);
    try (destruct sy, sz; discriminate || reflexivity);
    try (destruct sx, sy, sz; discriminate || reflexivity).
  all: destruct sx, sy, sz; try discriminate; try reflexivity.
  all: change (PosDef.Pos.compare_cont Eq) with Pos.compare.
  all: repeat match goal with
       | |- context [Z.compare ?a ?b] => destruct (Z.compare_spec a b)
       end; try discriminate; try reflexivity; try lia.
  all: subst.
  all: repeat match goal with
       | |- context [Pos.compare ?a ?b] => destruct (Pos.compare_spec a b)
       end; simpl; try discriminate; try reflexivity; try lia.
Qed.

Lemma float_lt_le (x y : Float64.float) :
  Float64.ltb x y = true -> Float64.leb x y = true.
Proof.
  unfold Float64.ltb, Float64.leb, SFltb, SFleb.
  destruct (SFcompare x y) as [[]|]; try discriminate; reflexivity.
Qed.

Lemma float_le_refl (x : Float64.float) :
  Float64.is_nan x = false -> Float64.leb x x = true.
Proof.
  intros Hx. unfold Float64.leb, SFleb. rewrite SFcompare_refl; [reflexivity|].
  intros ->. discriminate.
Qed.

Lemma float_lt_not_nan (x y : Float64.float) :
  Float64.ltb x y = true -> Float64.is_nan y = false.
Proof. destruct x as [| | |], y as [| | |]; simpl; try reflexivity; discriminate. Qed.

(** A comparison of SymPy values on doubles that returns has compared two
    numbers. *)
Lemma float_sym_compare_ok (test : Float64.float -> Float64.float -> bool)
    (x y : Float64.float) (r : bool) :
  float_sym_compare test x y = Ok r ->
  Float64.is_nan x = false /\ Float64.is_nan y = false /\ r = test x y.
Proof.
  unfold float_sym_compare.
  destruct (Float64.is_nan x); [discriminate|].
  destruct (Float64.is_nan y); [discriminate|].
  simpl. intros H. injection H as <-. auto.
Qed.

(** When [max] returns, every element it compared is a number and the
    result is at least each of them. *)
Lemma max_from_dominates (l : list Float64.float) :
  forall (largest : Float64.float) (seen : list Float64.float)
         (r : Float64.float),
    max_from (N := double) largest l = Ok r ->
    Forall (fun w => Float64.leb w largest = true) seen ->
    (Float64.is_nan largest = false \/ l <> []) ->
    Forall (fun w => Float64.leb w r = true) (seen ++ l)
    /\ Forall (fun w => Float64.is_nan w = false) l
    /\ Float64.leb largest r = true.
Proof.
  induction l as [|x l IH]; intros largest seen r H Hseen Hnum.
  - cbn [max_from] in H. injection H as <-.
    rewrite app_nil_r. split; [exact Hseen|]. split; [constructor|].
    destruct Hnum as [Hnum|Hnum]; [|congruence].
    apply float_le_refl. exact Hnum.
  - cbn [max_from] in H.
    change (@sym_ltb double largest x)
      with (float_sym_compare Float64.ltb largest x) in H.
    destruct (float_sym_compare Float64.ltb largest x) as [greater|e] eqn:Hc;
      [|discriminate].
    cbn [Py.bind] in H.
    apply float_sym_compare_ok in Hc. destruct Hc as (Hl & Hx & ->).
    assert (E : seen ++ x :: l = (seen ++ [x]) ++ l)
      by (rewrite <- app_assoc; reflexivity).
    rewrite E.
    destruct (Float64.ltb largest x) eqn:Hlt.
    + destruct (IH x (seen ++ [x]) r H) as (Hall & Hrest & Hxr);
        [|left; exact Hx|].
      * apply Forall_app. split.
        -- eapply Forall_impl; [|exact Hseen]. intros w Hw. cbv beta in Hw.
           apply (SFleb_trans w largest x);
             [exact Hw | apply float_lt_le; exact Hlt].
        -- constructor; [apply float_le_refl; exact Hx | constructor].
      * split; [exact Hall|]. split; [constructor; assumption|].
        apply (SFleb_trans largest x r);
          [apply float_lt_le; exact Hlt | exact Hxr].
    + destruct (IH largest (seen ++ [x]) r H) as (Hall & Hrest & Hlr);
        [|left; exact Hl|].
      * apply Forall_app. split; [exact Hseen|].
        constructor; [|constructor].
        apply float_not_lt_le; assumption.
      * split; [exact Hall|]. split; [constructor; assumption | exact Hlr].
Qed.

(** The steps of the computation of the bound. *)
Lemma grid_maximum_steps {N : numeric} (a b : N) (function : N -> result N)
    (m : N) :
  grid_maximum a b function = Ok m ->
  exists grid images,
    linspace a b (Z.to_nat 10000) = Ok grid
    /\ traverse function grid = Ok images
    /\ length images = Z.to_nat 10000
    /\ py_max images = Ok m.
Proof.
  intros Hm. unfold grid_maximum, grid_points in Hm.
  change (Z.to_nat 10000) with (S (Z.to_nat 9999)) in *.
  destruct (div (sub b a) (of_nat (Z.to_nat 9999))) as [step|e] eqn:Hstep.
  - destruct (linspace_points a b step (Z.to_nat 9999) Hstep)
      as (grid & Hgrid & Hlen & _).
    rewrite Hgrid in Hm. cbn [Py.bind] in Hm.
    destruct (traverse function grid) as [images|e] eqn:Himages;
      [|discriminate].
    cbn [Py.bind] in Hm.
    exists grid, images. split; [exact Hgrid|]. split; [exact Himages|].
    split; [|exact Hm].
    rewrite (traverse_length _ _ _ Himages). exact Hlen.
  - unfold linspace in Hm.
    replace (S (Z.to_nat 9999) - 1)%nat with (Z.to_nat 9999) in Hm by lia.
    rewrite Hstep in Hm. discriminate.
Qed.

Lemma py_max_dominates (images : list Float64.float) (m : Float64.float) :
  py_max (N := double) images = Ok m ->
  Forall (fun w => Float64.is_nan w = false) images ->
  Forall (fun w => Float64.leb w m = true) images.
Proof.
  intros Hm Hnum. destruct images as [|v images]; [discriminate|].
  inversion Hnum as [|v' l' Hv Hrest]; subst.
  destruct (max_from_dominates images v [v] m Hm) as (Hall & _ & _).
  - constructor; [apply float_le_refl; exact Hv | constructor].
  - left. exact Hv.
  - exact Hall.
Qed.


(** X13: on doubles, the bound the variant computes is the density at one
    of the 10000 grid points and, when no density on the grid is NaN, is
    at least the density at every grid point. *)
Theorem grid_maximum_dominates (a b : double)
    (function : double -> result double) (m : double) :
  grid_maximum a b function = Ok m ->
  exists grid images,
    linspace a b (Z.to_nat 10000) = Ok grid
    /\ traverse function grid = Ok images
    /\ length images = Z.to_nat 10000
    /\ In m images
    /\ (Forall (fun w : double => Float64.is_nan w = false) images ->
        Forall (fun w : double => Float64.leb w m = true) images).
Proof.
  intros Hm.
  destruct (grid_maximum_steps a b function m Hm)
    as (grid & images & Hgrid & Himages & Hlen & Hmax).
  exists grid, images. split; [exact Hgrid|]. split; [exact Himages|].
  split; [exact Hlen|]. split; [apply py_max_in; exact Hmax|].
  apply py_max_dominates. exact Hmax.
Qed.

Lemma grid_maximum_dominates_witness :
  exists grid images,
    linspace (N := double) (Float64.of_Z 1) (Float64.of_Z 3) (Z.to_nat 10000)
    = Ok grid
    /\ traverse flat_density grid = Ok images
    /\ length images = Z.to_nat 10000
    /\ In (Float64.ratio 1 2 : double) images
    /\ (Forall (fun w : double => Float64.is_nan w = false) images ->
        Forall (fun w : double => Float64.leb w (Float64.ratio 1 2) = true)
          images).
Proof.
  apply (grid_maximum_dominates (Float64.of_Z 1) (Float64.of_Z 3)
           flat_density (Float64.ratio 1 2)).
  vm_compute. reflexivity.
Defined.

(** ** Inverse-transform sampler: what the batch is made of *)

Section InverseTransformBatch.

Context {N : numeric}.
Variables (transform : N -> N) (lower_bound upper_bound : option N).
Variables (n_samples : Z) (draws : rng N).

(** The batch is the list the loop was entered with, followed by the kept
    candidates of the draws it read, in their order. *)
Lemma its_loop_filter fuel :
  forall pos rvs batch pos',
    its_loop transform lower_bound upper_bound n_samples draws fuel pos rvs
    = Some (batch, pos') ->
    (pos <= pos')%nat
    /\ batch
       = rvs ++ filter (fun rv => negb (out_of_range lower_bound upper_bound rv))
                  (its_candidates transform draws pos (pos' - pos)).
Proof.
  induction fuel as [|fuel IH]; intros pos rvs batch pos' H; simpl in H.
  - discriminate.
  - destruct (Z.of_nat (length rvs) <? n_samples).
    + destruct (out_of_range lower_bound upper_bound
                  (transform (uniform zero one (draws pos)))) eqn:Hout;
        apply IH in H; destruct H as [Hle ->]; (split; [lia|]);
        replace (pos' - pos)%nat with (S (pos' - S pos)) by lia;
        unfold its_candidates; simpl seq; simpl map;
        unfold its_candidate at 2; simpl filter; rewrite Hout; simpl.
      * reflexivity.
      * rewrite <- app_assoc. reflexivity.
    + injection H as <- <-. split; [lia|].
      rewrite Nat.sub_diag. simpl. rewrite app_nil_r. reflexivity.
Qed.

End InverseTransformBatch.

Section InverseTransformUnclamped.

Context {N : numeric}.
Variables (transform : N -> N) (n_samples : Z) (draws : rng N).

(** Without bounds every candidate is kept: [k] more draws complete the
    batch. *)
Lemma its_loop_unclamped k :
  forall pos rvs,
    Z.of_nat (length rvs) + Z.of_nat k = Z.max n_samples (Z.of_nat (length rvs)) ->
    its_loop transform None None n_samples draws (S k) pos rvs
    = Some (rvs ++ its_candidates transform draws pos k, (pos + k)%nat).
Proof.
  induction k as [|k IH]; intros pos rvs Hk.
  - simpl. destruct (Z.of_nat (length rvs) <? n_samples) eqn:Hlt.
    + apply Z.ltb_lt in Hlt. lia.
    + rewrite app_nil_r, Nat.add_0_r. reflexivity.
  - change (its_loop transform None None n_samples draws (S (S k)) pos rvs)
      with (if Z.of_nat (length rvs) <? n_samples then
              its_loop transform None None n_samples draws (S k) (S pos)
                (rvs ++ [transform (uniform zero one (draws pos))])
            else Some (rvs, pos)).
    destruct (Z.of_nat (length rvs) <? n_samples) eqn:Hlt.
    + apply Z.ltb_lt in Hlt. rewrite IH.
      * unfold its_candidates. simpl seq. simpl map.
        rewrite <- app_assoc. unfold its_candidate at 2.
        f_equal. f_equal. lia.
      * rewrite length_app. simpl length. lia.
    + apply Z.ltb_ge in Hlt. lia.
Qed.

End InverseTransformUnclamped.

(** X14: for a count [n_samples <= 0] both inverse-transform variants
    return the empty batch at the first test of the loop, without a draw,
    whatever the bounds are. *)
Theorem its_empty_batch {N : numeric} {params : Type}
    (stats : catalog N params) (dist_name : string) (args : params)
    (ppf : params -> N -> N) (inverse : N -> N) (n_samples : Z)
    (lower_bound upper_bound : option N) (draws : rng N) (fuel pos : nat) :
  n_samples <= 0 ->
  stats dist_name = Some ppf ->
  inverse_transform_sampling stats n_samples dist_name lower_bound
    upper_bound args draws (S fuel) pos = Some (Ok ([], pos))
  /\ user_inverse_transform_sampling_from_inverse n_samples inverse
       lower_bound upper_bound draws (S fuel) pos = Some (Ok ([], pos)).
Proof.
  intros Hn Hdist.
  unfold inverse_transform_sampling,
    user_inverse_transform_sampling_from_inverse. rewrite Hdist. simpl.
  destruct (0 <? n_samples) eqn:Hlt; [apply Z.ltb_lt in Hlt; lia|].
  split; reflexivity.
Qed.

Lemma its_empty_batch_witness :
  inverse_transform_sampling uniform_catalog 0 "uniform"
    (Some (Float64.ratio 1 2 : double)) None tt cycling_draws 1 0
  = Some (Ok ([], 0%nat))
  /\ user_inverse_transform_sampling_from_inverse (N := double) 0
       (fun u => u) (Some (Float64.ratio 1 2 : double)) None cycling_draws 1 0
     = Some (Ok ([], 0%nat)).
Proof.
  apply (its_empty_batch (N := double) uniform_catalog "uniform" tt
           (fun _ u => u) (fun u => u) 0);
    [lia | reflexivity].
Defined.

(** X15: without bounds, both variants return after exactly [n_samples]
    draws, and the batch is the function applied to those draws, in the
    order they were drawn. *)
Theorem its_unclamped_batch {N : numeric} {params : Type}
    (stats : catalog N params) (dist_name : string) (args : params)
    (ppf : params -> N -> N) (inverse : N -> N) (n_samples : Z)
    (draws : rng N) (pos : nat) :
  0 <= n_samples ->
  stats dist_name = Some ppf ->
  inverse_transform_sampling stats n_samples dist_name None None args
    draws (S (Z.to_nat n_samples)) pos
  = Some (Ok (its_candidates (ppf args) draws pos (Z.to_nat n_samples),
              (pos + Z.to_nat n_samples)%nat))
  /\ user_inverse_transform_sampling_from_inverse n_samples inverse
       None None draws (S (Z.to_nat n_samples)) pos
     = Some (Ok (its_candidates inverse draws pos (Z.to_nat n_samples),
                 (pos + Z.to_nat n_samples)%nat)).
Proof.
  intros Hn Hdist.
  unfold inverse_transform_sampling,
    user_inverse_transform_sampling_from_inverse. rewrite Hdist.
  rewrite !its_loop_unclamped by (simpl length; lia).
  split; reflexivity.
Qed.

Lemma its_unclamped_batch_witness :
  inverse_transform_sampling uniform_catalog 2 "uniform" None None tt
    cycling_draws (S (Z.to_nat 2)) 0
  = Some (Ok (its_candidates (N := double) (fun u => u) cycling_draws 0
                (Z.to_nat 2), (0 + Z.to_nat 2)%nat))
  /\ user_inverse_transform_sampling_from_inverse (N := double) 2
       (fun u => u) None None cycling_draws (S (Z.to_nat 2)) 0
     = Some (Ok (its_candidates (N := double) (fun u => u) cycling_draws 0
                   (Z.to_nat 2), (0 + Z.to_nat 2)%nat)).
Proof.
  apply (its_unclamped_batch (N := double) uniform_catalog "uniform" tt
           (fun _ u => u) (fun u => u) 2 cycling_draws 0);
    [lia | reflexivity].
Defined.

(** X16: a batch returned by either variant is exactly the candidates of
    the draws the call read that the clamp test keeps, in the order of the
    draws: nothing is reordered, repeated or invented, and every rejected
    candidate costs one draw. *)
Theorem its_batch_is_filtered_draws {N : numeric} {params : Type}
    (stats : catalog N params) (dist_name : string) (args : params)
    (ppf : params -> N -> N) (inverse : N -> N) (n_samples : Z)
    (lower_bound upper_bound : option N) (draws : rng N) (fuel pos : nat)
    (batch : list N) (pos' : nat) :
  stats dist_name = Some ppf ->
  (inverse_transform_sampling stats n_samples dist_name lower_bound
     upper_bound args draws fuel pos = Some (Ok (batch, pos')) ->
   (pos <= pos')%nat
   /\ batch
      = filter (fun rv => negb (out_of_range lower_bound upper_bound rv))
          (its_candidates (ppf args) draws pos (pos' - pos)))
  /\ (user_inverse_transform_sampling_from_inverse n_samples inverse
        lower_bound upper_bound draws fuel pos = Some (Ok (batch, pos')) ->
      (pos <= pos')%nat
      /\ batch
         = filter (fun rv => negb (out_of_range lower_bound upper_bound rv))
             (its_candidates inverse draws pos (pos' - pos))).
Proof.
  intros Hdist.
  unfold inverse_transform_sampling,
    user_inverse_transform_sampling_from_inverse. rewrite Hdist.
  split; intros H.
  - destruct (its_loop (ppf args) lower_bound upper_bound n_samples draws
                fuel pos []) as [[batch0 pos0]|] eqn:Hloop; [|discriminate].
    simpl in H. injection H as <- <-.
    apply (its_loop_filter (ppf args) lower_bound upper_bound n_samples draws
             fuel pos [] batch0 pos0 Hloop).
  - destruct (its_loop inverse lower_bound upper_bound n_samples draws
                fuel pos []) as [[batch0 pos0]|] eqn:Hloop; [|discriminate].
    simpl in H. injection H as <- <-.
    apply (its_loop_filter inverse lower_bound upper_bound n_samples draws
             fuel pos [] batch0 pos0 Hloop).
Qed.

Lemma its_batch_is_filtered_draws_witness :
  (0 <= 3)%nat
  /\ [Float64.ratio 3 4; Float64.ratio 3 4]
     = filter (fun rv : double =>
                 negb (out_of_range (Some (Float64.ratio 1 2 : double))
                         (Some (Float64.of_Z 1 : double)) rv))
         (its_candidates (N := double) (fun u => u) cycling_draws 0 (3 - 0)).
Proof.
  refine (proj1 (its_batch_is_filtered_draws (N := double) uniform_catalog
                   "uniform" tt (fun _ u => u) (fun u => u) 2
                   (Some (Float64.ratio 1 2)) (Some (Float64.of_Z 1))
                   cycling_draws 4 0 [Float64.ratio 3 4; Float64.ratio 3 4] 3
                   _) _).
  - reflexivity.
  - vm_compute. reflexivity.
Defined.

Lemma out_of_range_nan (lower_bound upper_bound : option double) :
  out_of_range lower_bound upper_bound (S754_nan : double) = false.
Proof.
  unfold out_of_range.
  destruct lower_bound as [lo|], upper_bound as [hi|]; cbn [ltb double];
    unfold Float64.ltb, SFltb; cbn [SFcompare]; try reflexivity;
    destruct hi; reflexivity.
Qed.

(** X17: a candidate that is NaN passes the clamp test of both variants,
    whatever the bounds: with [n_samples = 1] and a first candidate that is
    NaN, the batch is that NaN. *)
Theorem its_nan_passes_clamp {params : Type}
    (stats : catalog double params) (dist_name : string) (args : params)
    (ppf : params -> double -> double) (inverse : double -> double)
    (lower_bound upper_bound : option double) (draws : rng double)
    (fuel pos : nat) :
  stats dist_name = Some ppf ->
  (its_candidate (ppf args) draws pos = S754_nan ->
   inverse_transform_sampling stats 1 dist_name lower_bound upper_bound
     args draws (S (S fuel)) pos = Some (Ok ([S754_nan], S pos)))
  /\ (its_candidate inverse draws pos = S754_nan ->
      user_inverse_transform_sampling_from_inverse 1 inverse lower_bound
        upper_bound draws (S (S fuel)) pos = Some (Ok ([S754_nan], S pos))).
Proof.
  intros Hdist.
  unfold inverse_transform_sampling,
    user_inverse_transform_sampling_from_inverse, its_candidate.
  rewrite Hdist.
  split; intros Hnan; cbn [its_loop length Z.of_nat Z.ltb Z.compare];
    rewrite Hnan, out_of_range_nan; reflexivity.
Qed.

Lemma its_nan_passes_clamp_witness :
  user_inverse_transform_sampling_from_inverse (N := double) 1 nan_inverse
    (Some (Float64.ratio 1 2 : double)) (Some (Float64.of_Z 1 : double))
    cycling_draws 2 0
  = Some (Ok ([S754_nan], 1%nat)).
Proof.
  refine (proj2 (its_nan_passes_clamp uniform_catalog "uniform" tt
                   (fun _ u => u) nan_inverse (Some (Float64.ratio 1 2))
                   (Some (Float64.of_Z 1)) cycling_draws 0 0 _) _);
    reflexivity.
Defined.

(** X18: each bound is enforced on its own: for a count
    [n_samples >= 0] and candidates that are numbers, every element of a
    batch the loop returns is at least the lower bound when one is set and
    at most the upper bound when one is set, and the batch has [n_samples]
    elements. *)
Theorem its_one_sided_clamp (transform : double -> double)
    (lower_bound upper_bound : option double) (n_samples : Z)
    (draws : rng double) (fuel pos : nat) (batch : list double)
    (pos' : nat) :
  0 <= n_samples ->
  (forall lo, lower_bound = Some lo -> Float64.is_nan lo = false) ->
  (forall hi, upper_bound = Some hi -> Float64.is_nan hi = false) ->
  (forall i, Float64.is_nan (its_candidate transform draws i) = false) ->
  user_inverse_transform_sampling_from_inverse n_samples transform
    lower_bound upper_bound draws fuel pos = Some (Ok (batch, pos')) ->
  Z.of_nat (length batch) = n_samples
  /\ Forall (fun rv : double =>
               (forall lo, lower_bound = Some lo -> Float64.leb lo rv = true)
               /\ (forall hi, upper_bound = Some hi ->
                     Float64.leb rv hi = true))
       batch.
Proof.
  intros Hn Hlo Hhi Hnum Hrun.
  unfold user_inverse_transform_sampling_from_inverse in Hrun.
  destruct (its_loop transform lower_bound upper_bound n_samples draws fuel
              pos []) as [[batch0 pos0]|] eqn:Hloop; [|discriminate].
  simpl in Hrun. injection Hrun as <- <-.
  destruct (its_loop_spec transform lower_bound upper_bound n_samples draws
              fuel pos [] batch0 pos0 Hloop) as [(new & -> & Hnew) Hlen].
  change ([] ++ new) with new in *. simpl length in Hlen.
  split; [etransitivity; [exact Hlen | lia]|].
  eapply Forall_impl; [|exact Hnew].
  intros rv [Hout [i ->]]. unfold out_of_range in Hout.
  apply orb_false_iff in Hout. destruct Hout as [H1 H2].
  split.
  - intros lo ->. apply float_not_lt_le; [apply Hnum | apply Hlo; reflexivity|].
    exact H1.
  - intros hi ->. apply float_not_lt_le; [apply Hhi; reflexivity | apply Hnum|].
    exact H2.
Qed.

Lemma its_one_sided_clamp_witness :
  Z.of_nat (length [Float64.ratio 3 4; Float64.ratio 3 4]) = 2
  /\ Forall (fun rv : double =>
               (forall lo, Some (Float64.ratio 1 2 : double) = Some lo ->
                  Float64.leb lo rv = true)
               /\ (forall hi, @None double = Some hi ->
                     Float64.leb rv hi = true))
       [Float64.ratio 3 4; Float64.ratio 3 4].
Proof.
  apply (its_one_sided_clamp (fun u => u) (Some (Float64.ratio 1 2)) None 2
           cycling_draws 4 0 [Float64.ratio 3 4; Float64.ratio 3 4] 3).
  - lia.
  - intros lo H. injection H as <-. vm_compute. reflexivity.
  - intros hi H. discriminate.
  - intros i. apply cycling_draws_numbers.
  - vm_compute. reflexivity.
Defined.

(** ** Symbolic inversion helper: what each outcome means *)

(** X19: a returned pair holds the integral and the solutions the solver
    returned for it; [None] means that the integration succeeded and the
    solver raised [PolynomialError]; and an exception reaching the caller
    is one of the integration, [PolynomialError] included since the
    integration runs outside the [try], or one of the solver other than
    [PolynomialError]. *)
Theorem inversion_result_meaning (E : engine) (function : expr E) :
  match integrate_and_find_inverse E function with
  | Ok (Some (integrated, inverse)) =>
      integrate E function = Ok integrated
      /\ solve E integrated = Ok inverse
  | Ok None =>
      exists integrated,
        integrate E function = Ok integrated
        /\ solve E integrated = Raise PolynomialError
  | Raise e =>
      integrate E function = Raise e
      \/ exists integrated,
           integrate E function = Ok integrated
           /\ solve E integrated = Raise e
           /\ e <> PolynomialError
  end.
Proof.
  unfold integrate_and_find_inverse.
  destruct (integrate E function) as [integrated|e]; cbn [Py.bind].
  - destruct (solve E integrated) as [inverse|e] eqn:Hsolve.
    + split; [reflexivity | exact Hsolve].
    + destruct e; try (right; exists integrated;
                       repeat split; [exact Hsolve | discriminate]).
      exists integrated. split; [reflexivity | exact Hsolve].
  - left. reflexivity.
Qed.



(** ** A density that no substitution evaluates *)

Lemma traverse_constant {N : numeric} (u : N) (l : list N) :
  traverse (fun _ : N => Ok u) l = Ok (map (fun _ => u) l).
Proof.
  induction l as [|x l IH]; simpl; [reflexivity|]. rewrite IH. reflexivity.
Qed.

(** X20: when the density evaluates to one and the same value at every
    point, a value that cannot be compared with itself, as the expression
    a text that mentions [x] stays after the substitution of the code's own
    symbol, the call raises the exception of that comparison in [max],
    before any trial and whatever [upper_limit] is. *)
Theorem ars_unevaluated_density_raises {N : numeric} (a b u : N)
    (upper_limit : Z) (draws : rng N) (pos : nat) (e : exn) :
  (exists step, div (sub b a) (of_nat (Z.to_nat 9999)) = Ok step) ->
  sym_ltb u u = Raise e ->
  generate_acceptance_rejection_with_symp a b (fun _ => Ok u) upper_limit
    draws pos
  = Raise e.
Proof.
  intros [step Hstep] Hcmp.
  destruct (linspace_points a b step (Z.to_nat 9999) Hstep)
    as (grid & Hgrid & Hlen & _).
  unfold generate_acceptance_rejection_with_symp, grid_maximum, grid_points.
  change (Z.to_nat 10000) with (S (Z.to_nat 9999)).
  rewrite Hgrid. cbn [Py.bind]. rewrite traverse_constant. cbn [Py.bind].
  destruct grid as [|g0 [|g1 grid]]; simpl in Hlen; try lia.
  cbn [map py_max max_from]. rewrite Hcmp. reflexivity.
Qed.

Lemma ars_unevaluated_density_raises_witness :
  generate_acceptance_rejection_with_symp (N := double)
    (Float64.of_Z 1) (Float64.of_Z 3) text_density 100 cycling_draws 0
  = Raise TypeError.
Proof.
  apply (ars_unevaluated_density_raises (N := double)
           (Float64.of_Z 1) (Float64.of_Z 3) S754_nan 100 cycling_draws 0
           TypeError).
  - eexists. vm_compute. reflexivity.
  - reflexivity.
Defined.
